(** * babygit: a read-only git object store (src/babygit/babygit.py)

    A shallow embedding of the object codec, the delta patch engine, the
    pack-index lookup, the pack-entry reader and the two stores, together
    with the properties of them that the specification states.

    Python 2 [str] values are byte strings: they are modelled as lists of
    8-bit characters.  Python integers are unbounded: they are modelled
    as [Z].  A raised exception is a value of the [outcome] type. *)

From Stdlib Require Import ZArith Ascii String List Lia Bool.
From Stdlib Require Import DecimalString DecimalZ Sorted.
From stdpp Require Import base option list gmap strings.

Import ListNotations.
Local Open Scope Z_scope.

(** ** Exceptions and outcomes *)

Inductive exn : Type :=
| ValueError (msg : string)
| IndexError
| KeyError
| AttributeError
| TypeError
| IOError
| StructError            (* struct.error *)
| ZlibError              (* zlib.error *)
| RuntimeError.          (* maximum recursion depth exceeded *)

(** [OutOfFuel] is not a Python result: it says that a loop of the model
    was cut before the Python loop would have finished. *)
Inductive outcome (A : Type) : Type :=
| Ok (a : A)
| Raise (e : exn)
| OutOfFuel.

Arguments Ok {A} a.
Arguments Raise {A} e.
Arguments OutOfFuel {A}.

Definition bind {A B} (m : outcome A) (k : A -> outcome B) : outcome B :=
  match m with
  | Ok a => k a
  | Raise e => Raise e
  | OutOfFuel => OutOfFuel
  end.

Notation "'let*' x ':=' m 'in' k" := (bind m (fun x => k))
  (at level 10, x pattern, m at level 100, k at level 200).

Definition raises {A} (m : outcome A) : Prop := exists e, m = Raise e.

(** ** Byte strings and the Python primitives the code uses *)

Definition bytes : Type := list ascii.

Definition blen (s : bytes) : Z := Z.of_nat (length s).

Definition ord (c : ascii) : Z := Z.of_N (N_of_ascii c).

Definition NUL : ascii := "000"%char.
Definition SP : ascii := " "%char.

Definition lit (s : string) : bytes := list_ascii_of_string s.

(** [s[i]]: a negative index counts from the end; out of range raises. *)
Definition py_index (s : bytes) (i : Z) : outcome ascii :=
  let j := if i <? 0 then i + blen s else i in
  if (j <? 0) || (blen s <=? j) then Raise IndexError
  else match nth_error s (Z.to_nat j) with
       | Some c => Ok c
       | None => Raise IndexError
       end.

(** Clamping of one slice bound, as Python does for [s[i:j]]. *)
Definition clamp (n i : Z) : Z :=
  let i := if i <? 0 then i + n else i in
  if i <? 0 then 0 else if n <? i then n else i.

(** [s[i:j]] *)
Definition py_slice (s : bytes) (i j : Z) : bytes :=
  let lo := clamp (blen s) i in
  let hi := clamp (blen s) j in
  firstn (Z.to_nat (hi - lo)) (skipn (Z.to_nat lo) s).

(** [s[i:]] and [s[:j]] *)
Definition py_slice_from (s : bytes) (i : Z) : bytes := py_slice s i (blen s).
Definition py_slice_to (s : bytes) (j : Z) : bytes := py_slice s 0 j.

(** [s.find(c)] for a one-character [c]: the first index, or -1. *)
Fixpoint py_find (s : bytes) (c : ascii) : Z :=
  match s with
  | [] => -1
  | x :: s' =>
      if Ascii.eqb x c then 0
      else let r := py_find s' c in if r <? 0 then -1 else r + 1
  end.

(** [str(n)] of an integer. *)
Definition py_str (n : Z) : bytes :=
  list_ascii_of_string (NilZero.string_of_int (Z.to_int n)).

(** [int(s)] in base 10, on an optional minus sign followed by digits.
    Python also accepts surrounding white space and a plus sign; no
    property below depends on those inputs, which the model rejects. *)
Definition py_int (s : bytes) : outcome Z :=
  match NilZero.int_of_string (string_of_list_ascii s) with
  | Some d => Ok (Z.of_int d)
  | None => Raise (ValueError "invalid literal for int()")
  end.

Definition is_digit (c : ascii) : Prop := 48 <= ord c <= 57.

(** ** Object codec *)

Definition obj_type (obj : bytes) : bytes :=
  py_slice_to obj (py_find obj SP).

Definition obj_size (obj : bytes) : outcome Z :=
  py_int (py_slice obj (py_find obj SP + 1) (py_find obj NUL)).

Definition obj_contents (obj : bytes) : bytes :=
  py_slice_from obj (py_find obj NUL + 1).

(** The three extraction functions applied to one object. *)
Definition extract (obj : bytes) : outcome (bytes * Z * bytes) :=
  let* size := obj_size obj in
  Ok (obj_type obj, size, obj_contents obj).

(** An envelope as the specification calls malformed: no space, no NUL,
    or a declared size that is not the length of the payload. *)
Definition malformed (obj : bytes) : Prop :=
  ~ In SP obj \/ ~ In NUL obj
  \/ exists size, obj_size obj = Ok size /\ size <> blen (obj_contents obj).

(** The envelope that [get_pack_obj] and [patch_delta] build:
    [type + ' ' + str(size) + '\x00'], followed by the payload. *)
Definition envelope_hdr (ty : bytes) (size : Z) : bytes :=
  ty ++ [SP] ++ py_str size ++ [NUL].

Definition envelope (ty payload : bytes) : bytes :=
  envelope_hdr ty (blen payload) ++ payload.

(** ** Delta patch engine *)

Fixpoint hdr_loop (fuel : nat) (data : bytes) (byte offset size shift : Z)
  : outcome (Z * Z) :=
  if Z.land byte 128 =? 0 then Ok (size, offset)
  else match fuel with
       | O => OutOfFuel
       | S fuel' =>
           let* c := py_index data offset in
           let byte := ord c in
           hdr_loop fuel' data byte (offset + 1)
                    (size + Z.shiftl (Z.land byte 127) shift) (shift + 7)
       end.

Definition get_delta_hdr_size (data : bytes) (offset : Z) : outcome (Z * Z) :=
  let* c := py_index data offset in
  let byte := ord c in
  hdr_loop (Z.to_nat (blen data - offset)) data byte (offset + 1)
           (Z.land byte 127) 7.

(** The two [for] loops that read the operands of a copy opcode; each
    works on the pair (accumulated value, offset into the delta). *)
Definition copy_off_step (delta : bytes) (cmd : Z)
  (acc : outcome (Z * Z)) (i : Z) : outcome (Z * Z) :=
  let* (copy_off, offset) := acc in
  if Z.land cmd (Z.shiftl 1 i) =? 0 then Ok (copy_off, offset)
  else let* c := py_index delta offset in
       Ok (copy_off + Z.shiftl (ord c) (Z.shiftl i 3), offset + 1).

Definition copy_size_step (delta : bytes) (cmd : Z)
  (acc : outcome (Z * Z)) (i : Z) : outcome (Z * Z) :=
  let* (copy_size, offset) := acc in
  if Z.land cmd (Z.shiftl 16 i) =? 0 then Ok (copy_size, offset)
  else let* c := py_index delta offset in
       Ok (Z.lor copy_size (Z.shiftl (ord c) (Z.shiftl i 3)), offset + 1).

(** Operands of a copy opcode: (copy_off, copy_size, offset after them),
    [copy_size] already replaced by 0x10000 when it is 0. *)
Definition copy_operands (delta : bytes) (data_off cmd offset : Z)
  : outcome (Z * Z * Z) :=
  let* (copy_off, offset) :=
    fold_left (copy_off_step delta cmd) [0; 1; 2; 3] (Ok (data_off, offset)) in
  let* (copy_size, offset) :=
    fold_left (copy_size_step delta cmd) [0; 1; 2] (Ok (0, offset)) in
  let copy_size := if copy_size =? 0 then 65536 else copy_size in
  Ok (copy_off, copy_size, offset).

(** State of the opcode loop of [patch_delta]. *)
Record pstate : Type := PState {
  p_offset : Z;             (* offset *)
  p_remaining : Z;          (* size_remaining *)
  p_result : list bytes     (* result *)
}.

(** One pass through the body of [while offset < len(delta)]. *)
Definition patch_step (ref delta : bytes) (data_off : Z) (st : pstate)
  : outcome pstate :=
  let* c := py_index delta (p_offset st) in
  let cmd := ord c in
  let offset := p_offset st + 1 in
  if negb (Z.land cmd 128 =? 0) then
    let* (copy_off, copy_size, offset) := copy_operands delta data_off cmd offset in
    if blen ref <? copy_off + copy_size then
      Raise (ValueError "size overflow")
    else if p_remaining st <? copy_size then
      Raise (ValueError "output size overflow")
    else
      Ok (PState offset (p_remaining st - copy_size)
                 (p_result st ++ [py_slice ref copy_off (copy_off + copy_size)]))
  else if 0 <? cmd then
    if p_remaining st <? cmd then Raise (ValueError "output size overflow")
    else
      Ok (PState (offset + cmd) (p_remaining st - cmd)
                 (p_result st ++ [py_slice delta offset (offset + cmd)]))
  else Raise (ValueError "caught zero command").

Fixpoint patch_loop (fuel : nat) (ref delta : bytes) (data_off : Z)
  (st : pstate) : outcome pstate :=
  if p_offset st <? blen delta then
    match fuel with
    | O => OutOfFuel
    | S fuel' =>
        let* st' := patch_step ref delta data_off st in
        patch_loop fuel' ref delta data_off st'
    end
  else Ok st.

(** The values [patch_delta] holds when it enters the opcode loop:
    (data_off, result_size, initial loop state). *)
Definition patch_prologue (ref delta : bytes) : outcome (Z * Z * pstate) :=
  let* (src_size, offset) := get_delta_hdr_size delta 0 in
  let data_off := py_find ref NUL + 1 in
  if negb (src_size =? blen ref - data_off) then
    Raise (ValueError "size mismatch")
  else
    let* (result_size, offset) := get_delta_hdr_size delta offset in
    Ok (data_off, result_size,
        PState offset result_size [envelope_hdr (obj_type ref) result_size]).

Definition patch_delta (ref delta : bytes) : outcome bytes :=
  let* (data_off, _, st0) := patch_prologue ref delta in
  let* st := patch_loop (length delta) ref delta data_off st0 in
  if negb (p_remaining st =? 0) then
    Raise (ValueError "didn't fill output buffer")
  else Ok (concat (p_result st)).

(** When the base is [None] (a pack entry of an unsupported type),
    [patch_delta] fails at [ref.find], after it has read the first size. *)
Definition patch_delta_opt (ref : option bytes) (delta : bytes)
  : outcome bytes :=
  match ref with
  | Some ref => patch_delta ref delta
  | None => let* _ := get_delta_hdr_size delta 0 in Raise AttributeError
  end.

(** Iterations of the opcode loop: [loop_reaches st0 st] says that the
    loop entered in state [st0] is, some iterations later, at its head in
    state [st]. *)
Inductive loop_reaches (ref delta : bytes) (data_off : Z)
  : pstate -> pstate -> Prop :=
| reach_here st : loop_reaches ref delta data_off st st
| reach_next st st' st'' :
    p_offset st < blen delta ->
    patch_step ref delta data_off st = Ok st' ->
    loop_reaches ref delta data_off st' st'' ->
    loop_reaches ref delta data_off st st''.

(** [at_loop_head ref delta data_off st]: running [patch_delta ref delta]
    arrives at the head of its opcode loop in state [st]. *)
Definition at_loop_head (ref delta : bytes) (data_off : Z) (st : pstate)
  : Prop :=
  exists result_size st0,
    patch_prologue ref delta = Ok (data_off, result_size, st0) /\
    loop_reaches ref delta data_off st0 st.

(** The opcode at the head of the loop, when the stream is not exhausted. *)
Definition opcode_at (delta : bytes) (st : pstate) (cmd : Z) : Prop :=
  p_offset st < blen delta /\
  exists c, py_index delta (p_offset st) = Ok c /\ cmd = ord c.

(** The defects of a delta that the specification lists, each with the
    exception that the code raises for it. *)
Inductive delta_defect (ref delta : bytes) : exn -> Prop :=
| defect_base_size src_size offset :
    get_delta_hdr_size delta 0 = Ok (src_size, offset) ->
    src_size <> blen (obj_contents ref) ->
    delta_defect ref delta (ValueError "size mismatch")
| defect_copy_range data_off st cmd copy_off copy_size offset :
    at_loop_head ref delta data_off st ->
    opcode_at delta st cmd ->
    Z.land cmd 128 <> 0 ->
    copy_operands delta data_off cmd (p_offset st + 1)
      = Ok (copy_off, copy_size, offset) ->
    (copy_off - data_off) + copy_size > blen (obj_contents ref) ->
    delta_defect ref delta (ValueError "size overflow")
| defect_copy_budget data_off st cmd copy_off copy_size offset :
    at_loop_head ref delta data_off st ->
    opcode_at delta st cmd ->
    Z.land cmd 128 <> 0 ->
    copy_operands delta data_off cmd (p_offset st + 1)
      = Ok (copy_off, copy_size, offset) ->
    copy_size > p_remaining st ->
    delta_defect ref delta
      (ValueError (if blen ref <? copy_off + copy_size
                   then "size overflow" else "output size overflow"))
| defect_insert_budget data_off st cmd :
    at_loop_head ref delta data_off st ->
    opcode_at delta st cmd ->
    Z.land cmd 128 = 0 ->
    cmd > p_remaining st ->
    cmd > 0 ->
    delta_defect ref delta (ValueError "output size overflow")
| defect_zero_opcode data_off st :
    at_loop_head ref delta data_off st ->
    opcode_at delta st 0 ->
    delta_defect ref delta (ValueError "caught zero command")
| defect_incomplete data_off st :
    at_loop_head ref delta data_off st ->
    blen delta <= p_offset st ->
    p_remaining st <> 0 ->
    delta_defect ref delta (ValueError "didn't fill output buffer").

(** ** Pack index *)

Definition chr (n : Z) : ascii := ascii_of_N (Z.to_N n).

Fixpoint bytes_eqb (s t : bytes) : bool :=
  match s, t with
  | [], [] => true
  | x :: s', y :: t' => Ascii.eqb x y && bytes_eqb s' t'
  | _, _ => false
  end.

(** Value of a big-endian byte string. *)
Definition be_value (s : bytes) : Z :=
  fold_left (fun acc c => acc * 256 + ord c) s 0.

(** [struct.unpack('>I', s)] and [struct.unpack('>II', s)]: the string
    must have exactly the size of the format. *)
Definition unpack_I (s : bytes) : outcome Z :=
  if blen s =? 4 then Ok (be_value s) else Raise StructError.

Definition unpack_II (s : bytes) : outcome (Z * Z) :=
  if blen s =? 8
  then Ok (be_value (firstn 4 s), be_value (skipn 4 s))
  else Raise StructError.

Definition hex_digit (c : ascii) : option Z :=
  let n := ord c in
  if (48 <=? n) && (n <=? 57) then Some (n - 48)
  else if (97 <=? n) && (n <=? 102) then Some (n - 87)
  else if (65 <=? n) && (n <=? 70) then Some (n - 55)
  else None.

Fixpoint hex_value (s : bytes) (acc : Z) : option Z :=
  match s with
  | [] => Some acc
  | c :: s' =>
      match hex_digit c with
      | Some d => hex_value s' (acc * 16 + d)
      | None => None
      end
  end.

(** [int(s, 16)] on a non-empty string of hexadecimal digits.  Python also
    accepts white space, a sign and a 0x prefix; a hash has none of them,
    and the model rejects them. *)
Definition py_int16 (s : bytes) : outcome Z :=
  match s with
  | [] => Raise (ValueError "invalid literal for int()")
  | _ => match hex_value s 0 with
         | Some n => Ok n
         | None => Raise (ValueError "invalid literal for int()")
         end
  end.

(** [binascii.unhexlify(s)] *)
Fixpoint unhexlify (s : bytes) : outcome bytes :=
  match s with
  | [] => Ok []
  | [_] => Raise TypeError
  | x :: y :: s' =>
      match hex_digit x, hex_digit y with
      | Some hi, Some lo =>
          let* r := unhexlify s' in Ok (chr (hi * 16 + lo) :: r)
      | _, _ => Raise TypeError
      end
  end.

Definition hex_char (n : Z) : ascii :=
  if n <? 10 then chr (48 + n) else chr (87 + n).

(** [binascii.hexlify(s)] *)
Definition hexlify (s : bytes) : bytes :=
  flat_map (fun c => [hex_char (ord c / 16); hex_char (ord c mod 16)]) s.

(** [range(lo, hi)] *)
Definition py_range (lo hi : Z) : list Z :=
  map (fun k => lo + Z.of_nat k) (seq 0 (Z.to_nat (hi - lo))).

(** Entry [ix] of the hash table, [idx[off:off+20]] with
    [off = 1032 + 20 * ix]. *)
Definition hash_at (idx : bytes) (ix : Z) : bytes :=
  let off := 1032 + 20 * ix in py_slice idx off (off + 20).

(** The candidate range read from the fan-out table. *)
Definition index_range (idx : bytes) (firstbyte : Z) : outcome (Z * Z) :=
  if firstbyte =? 0 then
    let* indexhi := unpack_I (py_slice idx 8 12) in Ok (0, indexhi)
  else
    let off := 4 + 4 * firstbyte in
    unpack_II (py_slice idx off (off + 8)).

(** The [for ix in range(indexlo, indexhi)] scan with its [break]. *)
Definition linear_scan (idx binaryhash : bytes) (indexlo indexhi : Z)
  : option Z :=
  List.find (fun ix => bytes_eqb (hash_at idx ix) binaryhash)
            (py_range indexlo indexhi).

(** The body of the loop over the packs in [get_obj_from_pack], up to the
    pack offset: [Some pack_off] when the hash is found in this index. *)
Definition index_lookup (idx : bytes) (firstbyte : Z) (binaryhash : bytes)
  : outcome (option Z) :=
  let* (indexlo, indexhi) := index_range idx firstbyte in
  match linear_scan idx binaryhash indexlo indexhi with
  | Some found_ix =>
      let* n_objs := unpack_I (py_slice idx 1028 1032) in
      let off := 1032 + 24 * n_objs + 4 * found_ix in
      let* pack_off := unpack_I (py_slice idx off (off + 4)) in
      Ok (Some pack_off)
  | None => Ok None
  end.

(** The lookup of a hash in one pack index. *)
Definition lookup (idx sha : bytes) : outcome (option Z) :=
  let* firstbyte := py_int16 (py_slice_to sha 2) in
  let* binaryhash := unhexlify sha in
  index_lookup idx firstbyte binaryhash.

(** *** Binary search, the alternative the specification names *)

(** Order of Python byte strings. *)
Fixpoint bytes_compare (s t : bytes) : comparison :=
  match s, t with
  | [], [] => Eq
  | [], _ :: _ => Lt
  | _ :: _, [] => Gt
  | x :: s', y :: t' =>
      match Z.compare (ord x) (ord y) with
      | Eq => bytes_compare s' t'
      | c => c
      end
  end.

Definition bytes_lt (s t : bytes) : Prop := bytes_compare s t = Lt.

(** Follows the specification's words: a binary search for [binaryhash]
    among the entries [lo, hi) of the hash table. *)
Fixpoint binary_search_fuel (fuel : nat) (idx binaryhash : bytes) (lo hi : Z)
  : option Z :=
  match fuel with
  | O => None
  | S fuel' =>
      if lo <? hi then
        let mid := (lo + hi) / 2 in
        match bytes_compare (hash_at idx mid) binaryhash with
        | Eq => Some mid
        | Lt => binary_search_fuel fuel' idx binaryhash (mid + 1) hi
        | Gt => binary_search_fuel fuel' idx binaryhash lo mid
        end
      else None
  end.

Definition binary_search (idx binaryhash : bytes) (lo hi : Z) : option Z :=
  binary_search_fuel (Z.to_nat (hi - lo)) idx binaryhash lo hi.

(** [index_lookup] with the linear scan replaced by the binary search. *)
Definition index_lookup_bsearch (idx : bytes) (firstbyte : Z)
  (binaryhash : bytes) : outcome (option Z) :=
  let* (indexlo, indexhi) := index_range idx firstbyte in
  match binary_search idx binaryhash indexlo indexhi with
  | Some found_ix =>
      let* n_objs := unpack_I (py_slice idx 1028 1032) in
      let off := 1032 + 24 * n_objs + 4 * found_ix in
      let* pack_off := unpack_I (py_slice idx off (off + 4)) in
      Ok (Some pack_off)
  | None => Ok None
  end.

(** *** Well-formed version-2 indexes *)

(** Fan-out entry [b]: the big-endian word at byte [8 + 4 * b]. *)
Definition fanout (idx : bytes) (b : Z) : Z :=
  be_value (py_slice idx (8 + 4 * b) (12 + 4 * b)).

(** Number of objects: the final fan-out entry. *)
Definition n_objects (idx : bytes) : Z := fanout idx 255.

(** Entry [ix] of the offset table, which follows the hash table and the
    CRC table. *)
Definition offset_at (idx : bytes) (ix : Z) : Z :=
  let off := 1032 + 24 * n_objects idx + 4 * ix in
  be_value (py_slice idx off (off + 4)).

(** The entries [lo, hi) of the hash table are in ascending order, each
    hash once. *)
Definition sorted_range (idx : bytes) (lo hi : Z) : Prop :=
  forall i j, lo <= i < j -> j < hi ->
    bytes_lt (hash_at idx i) (hash_at idx j).

Record wf_index (idx : bytes) : Prop := {
  wf_size : 1032 + 28 * n_objects idx <= blen idx;
  wf_fanout : forall b, 0 <= b < 255 -> fanout idx b <= fanout idx (b + 1);
  wf_sorted : sorted_range idx 0 (n_objects idx)
}.

(** A hash: 40 hexadecimal characters. *)
Definition is_hash (sha : bytes) : Prop :=
  length sha = 40%nat /\ Forall (fun c => hex_digit c <> None) sha.

(** ** The environment of the stores *)

(** The [zlib] module, which the stores call but which is not part of the
    program: a streaming decompressor ([zlib.decompressobj()] and its
    [decompress] method, which returns the bytes decoded from one more
    chunk of input) and the one-shot [zlib.compress], [zlib.decompress]. *)
Record zlib_api : Type := {
  z_state : Type;
  z_decompressobj : z_state;
  z_feed : z_state -> bytes -> outcome (bytes * z_state);
  z_compress : bytes -> bytes;
  z_decompress : bytes -> outcome bytes
}.

(** What a path names in the file system. *)
Inductive node : Type :=
| File (data : bytes)
| Dir.

Definition filesystem : Type := bytes -> option node.

(** [file(path)]: the handle is modelled as the bytes not yet read. *)
Definition open_file (fs : filesystem) (path : bytes) : outcome bytes :=
  match fs path with
  | Some (File data) => Ok data
  | _ => Raise IOError
  end.

(** [f.seek(offset)] on a freshly opened file. *)
Definition seek (f : bytes) (offset : Z) : outcome bytes :=
  if offset <? 0 then Raise IOError else Ok (skipn (Z.to_nat offset) f).

(** [ord(f.read(1))]: at the end of the file [f.read(1)] is empty and
    [ord] raises a [TypeError]. *)
Definition read_ord (f : bytes) : outcome (Z * bytes) :=
  match f with
  | c :: f' => Ok (ord c, f')
  | [] => Raise TypeError
  end.

(** [posixpath.join] *)
Definition path_join2 (path b : bytes) : bytes :=
  match b with
  | "/"%char :: _ => b
  | _ => match path with
         | [] => b
         | _ => if Ascii.eqb (List.last path NUL) "/"%char then path ++ b
                else path ++ ["/"%char] ++ b
         end
  end.

Definition path_join (a : bytes) (p : list bytes) : bytes :=
  fold_left path_join2 p a.

(** ** Pack object reader *)

Fixpoint size_loop (f : bytes) (byte size shift : Z) : outcome (Z * bytes) :=
  if Z.land byte 128 =? 0 then Ok (size, f)
  else match f with
       | [] => Raise TypeError
       | c :: f' =>
           let byte := ord c in
           size_loop f' byte (size + Z.shiftl (Z.land byte 127) shift)
                     (shift + 7)
       end.

Definition get_type_and_size (f : bytes) : outcome (Z * Z * bytes) :=
  let* (byte, f) := read_ord f in
  let t := Z.land (Z.shiftr byte 4) 7 in
  let size := Z.land byte 15 in
  let* (size, f) := size_loop f byte size 4 in
  Ok (t, size, f).

(** The loop of [get_pack_obj] that decodes the distance of an
    offset-delta. *)
Fixpoint ofs_loop (f : bytes) (byte off : Z) : outcome (Z * bytes) :=
  if Z.land byte 128 =? 0 then Ok (off, f)
  else match f with
       | [] => Raise TypeError
       | c :: f' =>
           let byte := ord c in
           ofs_loop f' byte (Z.shiftl (off + 1) 7 + Z.land byte 127)
       end.

Definition read_ofs (f : bytes) : outcome (Z * bytes) :=
  let* (byte, f) := read_ord f in
  ofs_loop f byte (Z.land byte 127).

Section Stores.

Variable zlib : zlib_api.

(** [store.obj_types[t]]: module [store] is not part of the sources; the
    table is a parameter. *)
Variable obj_types : Z -> outcome bytes.

(** [self.getobj], inherited from [store.Store], which is not part of the
    sources. *)
Variable getobj : bytes -> outcome (option bytes).

Variable fs : filesystem.

(** The [while sizeremaining > 0] loop of [read_zlib].  Nothing bounds the
    number of its iterations, so the model takes it as [fuel]. *)
Fixpoint read_zlib_loop (fuel : nat) (d : z_state zlib) (f : bytes)
  (sizeremaining : Z) (result : list bytes) : outcome (list bytes) :=
  if 0 <? sizeremaining then
    match fuel with
    | O => OutOfFuel
    | S fuel' =>
        let* (block, d) := z_feed zlib d (firstn 4096 f) in
        read_zlib_loop fuel' d (skipn 4096 f)
                       (sizeremaining - blen block) (result ++ [block])
    end
  else Ok result.

Definition read_zlib (fuel : nat) (f : bytes) (size : Z) : outcome bytes :=
  let* result := read_zlib_loop fuel (z_decompressobj zlib) f size [] in
  Ok (concat result).

(** [depth] is the number of nested calls that the interpreter still
    allows (Python raises a [RuntimeError] beyond its recursion limit). *)
Fixpoint get_pack_obj (depth fuel : nat) (packfn : bytes) (offset : Z)
  : outcome (option bytes) :=
  match depth with
  | O => Raise RuntimeError
  | S depth' =>
      let* f := open_file fs packfn in
      let* f := seek f offset in
      let* (t, size, f) := get_type_and_size f in
      if t <? 5 then
        let* name := obj_types t in
        let hdr := envelope_hdr name size in
        let* payload := read_zlib fuel f size in
        Ok (Some (hdr ++ payload))
      else if t =? 6 then
        let* (off, f) := read_ofs f in
        let ref_offset := offset - off in
        let* delta := read_zlib fuel f size in
        let* ref := get_pack_obj depth' fuel packfn ref_offset in
        let* obj := patch_delta_opt ref delta in
        Ok (Some obj)
      else if t =? 7 then
        let ref_sha := hexlify (firstn 20 f) in
        let* delta := read_zlib fuel (skipn 20 f) size in
        let* ref := getobj ref_sha in
        let* obj := patch_delta_opt ref delta in
        Ok (Some obj)
      else Ok None
  end.

(** [packs] is the value of [self.getpacks()]: the pairs (index bytes,
    pack file name). *)
Fixpoint search_packs (depth fuel : nat) (packs : list (bytes * bytes))
  (firstbyte : Z) (binaryhash : bytes) : outcome (option bytes) :=
  match packs with
  | [] => Ok None
  | (idx, fn) :: packs' =>
      let* found := index_lookup idx firstbyte binaryhash in
      match found with
      | Some pack_off => get_pack_obj depth fuel fn pack_off
      | None => search_packs depth fuel packs' firstbyte binaryhash
      end
  end.

Definition get_obj_from_pack (depth fuel : nat) (packs : list (bytes * bytes))
  (sha : bytes) : outcome (option bytes) :=
  let* firstbyte := py_int16 (py_slice_to sha 2) in
  let* binaryhash := unhexlify sha in
  search_packs depth fuel packs firstbyte binaryhash.

(** ** Loose objects *)

Definition loose_path (basedir sha : bytes) : bytes :=
  path_join basedir
    [lit "objects"; py_slice_to sha 2; py_slice_from sha 2].

(** [FsStore.getlooseobj]: [None] when the path does not exist. *)
Definition fs_getlooseobj (basedir sha : bytes) : outcome (option bytes) :=
  let path := loose_path basedir sha in
  match fs path with
  | Some _ => let* data := open_file fs path in Ok (Some data)
  | None => Ok None
  end.

(** ** MemStore *)

Definition mem_getobj (store : gmap bytes bytes) (sha : bytes)
  : outcome bytes :=
  match store !! sha with
  | Some value => Ok value
  | None => Raise KeyError
  end.

Definition mem_getlooseobj (store : gmap bytes bytes) (sha : bytes)
  : outcome bytes :=
  let* value := mem_getobj store sha in
  Ok (z_compress zlib value).

Definition mem_putobj (store : gmap bytes bytes) (sha value : bytes)
  : gmap bytes bytes :=
  <[sha := value]> store.

End Stores.

(** *** The distance of an offset-delta, in closed form *)

(** Value of 7-bit groups, the most significant first. *)
Fixpoint be128 (groups : list Z) : Z :=
  match groups with
  | [] => 0
  | g :: groups' => g * 128 ^ Z.of_nat (length groups') + be128 groups'
  end.

(** What the [+ 1] of every continuation step adds up to after [k]
    continuation bytes: 128 + 128^2 + ... + 128^k. *)
Fixpoint ofs_bias (k : nat) : Z :=
  match k with
  | O => 0
  | S k' => 128 ^ Z.of_nat k + ofs_bias k'
  end.

Definition low7 (c : ascii) : Z := Z.land (ord c) 127.

Definition continues (c : ascii) : Prop := Z.land (ord c) 128 <> 0.

(** A decompressor that, given no input, returns no output, call after
    call: [d.decompress('')] is [''] in state [d] and in every state
    that follows. *)
Definition idle_without_input (zlib : zlib_api) (d : z_state zlib) : Prop :=
  exists I : z_state zlib -> Prop,
    I d /\ forall d1, I d1 -> exists d2, z_feed zlib d1 [] = Ok ([], d2) /\ I d2.

(** The decompressor run over the first [n] chunks of 4096 bytes of the
    file [f], from the state [d]: the blocks that it yields, chunk by
    chunk, its state after them and the part of the file not yet read. *)
Fixpoint feed_chunks (zlib : zlib_api) (n : nat) (d : z_state zlib)
  (f : bytes) : outcome (list bytes * z_state zlib * bytes) :=
  match n with
  | O => Ok ([], d, f)
  | S n' =>
      let* (block, d) := z_feed zlib d (firstn 4096 f) in
      let* (blocks, d, f) := feed_chunks zlib n' d (skipn 4096 f) in
      Ok (block :: blocks, d, f)
  end.

(** ** A zlib for concrete runs

    The theorems below hold for every [zlib_api].  To run the stores on
    concrete files, [stored_zlib] implements the part of the zlib format
    (RFC 1950, RFC 1951) that consists of stored blocks: the streams that
    [zlib.compress(s, 0)] writes.  A block of another type is outside this
    part and is reported as an error. *)

Definition adler32 (s : bytes) : Z :=
  let '(a, b) :=
    fold_left (fun '(a, b) c =>
                 let a' := (a + ord c) mod 65521 in (a', (b + a') mod 65521))
              s (1, 0) in
  b * 65536 + a.

Definition le16 (lo hi : ascii) : Z := ord lo + 256 * ord hi.

(** Decodes the blocks in [input] as far as they go: the bytes decoded and
    whether the end of the stream (checksum included) was reached. *)
Fixpoint inflate_blocks (fuel : nat) (input out : bytes)
  : outcome (bytes * bool) :=
  match fuel, input with
  | O, _ | _, [] => Ok (out, false)
  | S fuel', hb :: rest =>
      if negb (Z.land (Z.shiftr (ord hb) 1) 3 =? 0) then Raise ZlibError
      else match rest with
           | l0 :: l1 :: n0 :: n1 :: data =>
               let len := le16 l0 l1 in
               if negb (len + le16 n0 n1 =? 65535) then Raise ZlibError
               else
                 let block := firstn (Z.to_nat len) data in
                 let out := out ++ block in
                 if blen block <? len then Ok (out, false)
                 else
                   let rest := skipn (Z.to_nat len) data in
                   if Z.land (ord hb) 1 =? 0
                   then inflate_blocks fuel' rest out
                   else match rest with
                        | a :: b :: c :: d :: _ =>
                            if be_value [a; b; c; d] =? adler32 out
                            then Ok (out, true) else Raise ZlibError
                        | _ => Ok (out, false)
                        end
           | _ => Ok (out, false)
           end
  end.

Definition inflate (input : bytes) : outcome (bytes * bool) :=
  match input with
  | cmf :: flg :: rest =>
      if negb (Z.land (ord cmf) 15 =? 8) || (7 <? Z.shiftr (ord cmf) 4)
         || negb ((ord cmf * 256 + ord flg) mod 31 =? 0)
         || negb (Z.land (ord flg) 32 =? 0)
      then Raise ZlibError
      else inflate_blocks (S (length rest)) rest []
  | _ => Ok ([], false)
  end.

(** The decompression object remembers the input it was given; a call
    returns the bytes that the new chunk adds to the output. *)
Definition stored_feed (seen chunk : bytes) : outcome (bytes * bytes) :=
  let* (old, _) := inflate seen in
  let* (new, _) := inflate (seen ++ chunk) in
  Ok (skipn (length old) new, seen ++ chunk).

Definition stored_decompress (s : bytes) : outcome bytes :=
  let* (out, finished) := inflate s in
  if finished then Ok out else Raise ZlibError.

Definition be32 (n : Z) : bytes :=
  [chr (n / 16777216); chr (n / 65536 mod 256); chr (n / 256 mod 256);
   chr (n mod 256)].

Fixpoint stored_blocks (fuel : nat) (s : bytes) : bytes :=
  match fuel with
  | O => []
  | S fuel' =>
      if blen s <=? 65535 then
        [chr 1; chr (blen s mod 256); chr (blen s / 256);
         chr (255 - blen s mod 256); chr (255 - blen s / 256)] ++ s
      else
        [chr 0; chr 255; chr 255; chr 0; chr 0] ++ firstn (Z.to_nat 65535) s
        ++ stored_blocks fuel' (skipn (Z.to_nat 65535) s)
  end.

Definition stored_compress (s : bytes) : bytes :=
  [chr 120; chr 1] ++ stored_blocks (S (length s)) s ++ be32 (adler32 s).

Definition stored_zlib : zlib_api := {|
  z_state := bytes;
  z_decompressobj := [];
  z_feed := stored_feed;
  z_compress := stored_compress;
  z_decompress := stored_decompress
|}.

(** ** Concrete inputs *)

(** Modelled from the spec: [store.obj_types], of module [store], which is
    not part of the sources.  The specification names the type codes 1 to
    4; code 0 has no name. *)
Definition spec_obj_types (t : Z) : outcome bytes :=
  if t =? 1 then Ok (lit "commit")
  else if t =? 2 then Ok (lit "tree")
  else if t =? 3 then Ok (lit "blob")
  else if t =? 4 then Ok (lit "tag")
  else Raise TypeError.

Definition no_getobj (sha : bytes) : outcome (option bytes) := Ok None.

(** The object ["blob 3\0abc"]. *)
Definition blob_abc : bytes := lit "blob 3" ++ [NUL] ++ lit "abc".

(** A delta for a 3-byte base and a 5-byte result: copy 2 bytes from
    offset 1, insert ["xyz"]. *)
Definition delta_bcxyz : bytes :=
  map chr [3; 5; 145; 1; 2; 3] ++ lit "xyz".

(** Deltas for the base [blob_abc], one for each defect that
    [patch_delta] rejects. *)
Definition delta_bad_base_size : bytes := map chr [5; 0].
Definition delta_copy_range : bytes := map chr [3; 5; 145; 2; 4].
Definition delta_copy_budget : bytes := map chr [3; 1; 144; 2].
Definition delta_insert_budget : bytes := map chr [3; 1; 2] ++ lit "xy".
Definition delta_zero_opcode : bytes := map chr [3; 5; 1] ++ lit "x" ++ [chr 0].
Definition delta_incomplete : bytes := map chr [3; 5; 1] ++ lit "x".

(** An insert opcode that announces 5 bytes, followed by 1 byte. *)
Definition blob_empty : bytes := lit "blob 0" ++ [NUL].
Definition delta_short_insert : bytes := map chr [0; 5; 5] ++ lit "a".

(** A pack file: the 12-byte header, the blob ["abc"] at offset 12, and
    at offset 27 an offset-delta entry against it. *)
Definition pack_bytes : bytes :=
  lit "PACK" ++ map chr [0; 0; 0; 2; 0; 0; 0; 2]
  ++ [chr 51] ++ stored_compress (lit "abc")
  ++ [chr 105; chr 15] ++ stored_compress delta_bcxyz.

Definition pack_name : bytes := lit "_git/objects/pack/pack-1.pack".

(** A file system that holds one file. *)
Definition single_file_fs (name data : bytes) : filesystem :=
  fun path => if bytes_eqb path name then Some (File data) else None.

Definition one_pack_fs : filesystem := single_file_fs pack_name pack_bytes.

(** An entry that declares a blob of 1 byte, followed by the zlib stream
    of the 5 bytes ["hello"]. *)
Definition pack_oversized : bytes :=
  [chr 49] ++ stored_compress (lit "hello").

(** The zlib stream of 4200 bytes ["a"], with a wrong checksum: the
    first chunk of 4096 bytes decodes to 4089 bytes, the second one is
    rejected. *)
Definition stream_bad_checksum : bytes :=
  map chr [120; 1; 1; 104; 16; 151; 239]
  ++ repeat "a"%char (Z.to_nat 4200) ++ be32 0.

(** An entry that declares a blob of 3 bytes, in a file that ends right
    after the entry header. *)
Definition pack_truncated : bytes := [chr 51].

(** A [MemStore] that holds one object. *)
Definition sha_hello : bytes :=
  lit "b6fc4c620b67d95f953a5c1c1230aaab5db5a1b0".

Definition mem_store_hello : gmap bytes bytes :=
  mem_putobj ∅ sha_hello (lit "blob 5" ++ [NUL] ++ lit "hello").

(** A version-2 index of three objects, with hashes 00 11.., ab 00.. and
    ab ff.., at pack offsets 12, 300 and 27. *)
Definition hash_a : bytes := map chr (0 :: repeat 17 19).
Definition hash_b : bytes := map chr (171 :: repeat 0 19).
Definition hash_c : bytes := map chr (171 :: repeat 255 19).

Definition index_bytes : bytes :=
  map chr [255; 116; 79; 99; 0; 0; 0; 2]
  ++ concat (repeat (be32 1) 171) ++ concat (repeat (be32 3) 85)
  ++ hash_a ++ hash_b ++ hash_c
  ++ concat (repeat (be32 0) 3)
  ++ be32 12 ++ be32 300 ++ be32 27.

Definition sha_b : bytes := lit "ab" ++ concat (repeat (lit "00") 19).
Definition sha_absent : bytes := lit "ab" ++ concat (repeat (lit "01") 19).

(** Boolean check of [wf_index], for concrete indexes. *)
Definition wf_indexb (idx : bytes) : bool :=
  (1032 + 28 * n_objects idx <=? blen idx)
  && forallb (fun b => fanout idx b <=? fanout idx (b + 1))
             (py_range 0 255)
  && forallb (fun i =>
                forallb (fun j =>
                           match bytes_compare (hash_at idx i) (hash_at idx j)
                           with Lt => true | _ => false end)
                        (py_range (i + 1) (n_objects idx)))
             (py_range 0 (n_objects idx)).

(* ================================================================= *)
(** * Properties *)

(** ** Outcomes *)

Lemma bind_Ok_inv {A B} (m : outcome A) (k : A -> outcome B) (r : B) :
  bind m k = Ok r -> exists a, m = Ok a /\ k a = Ok r.
Proof. destruct m; simpl; intros H; try discriminate. eauto. Qed.

Lemma fold_left_not_Ok {A} (f : outcome A -> Z -> outcome A) :
  (forall a i r, f a i = Ok r -> exists x, a = Ok x) ->
  forall l a r, fold_left f l a = Ok r -> exists x, a = Ok x.
Proof.
  intros Hf l. induction l as [|i l IH]; simpl; intros a r H.
  - eauto.
  - apply IH in H as [x Hx]. eapply Hf; eauto.
Qed.

(** ** Python primitives *)

Lemma blen_nonneg (s : bytes) : 0 <= blen s.
Proof. unfold blen. lia. Qed.

Lemma blen_app (s t : bytes) : blen (s ++ t) = blen s + blen t.
Proof. unfold blen. rewrite length_app. lia. Qed.

Lemma py_index_Ok_lt (s : bytes) (i : Z) (c : ascii) :
  py_index s i = Ok c -> i < blen s.
Proof.
  unfold py_index. pose proof (blen_nonneg s).
  destruct (i <? 0) eqn:Hi.
  - intros _. lia.
  - destruct (i <? 0) eqn:Hj; [discriminate|].
    destruct (blen s <=? i) eqn:Hk; simpl; [discriminate|]. lia.
Qed.

Lemma py_index_in_range (s : bytes) (i : Z) :
  0 <= i < blen s -> exists c, py_index s i = Ok c.
Proof.
  intros Hi. unfold py_index.
  destruct (i <? 0) eqn:H0; [lia|]. rewrite H0.
  destruct (blen s <=? i) eqn:H1; [lia|]. simpl.
  destruct (nth_error s (Z.to_nat i)) eqn:Hn; eauto.
  apply nth_error_None in Hn. unfold blen in Hi. lia.
Qed.

(** ** The delta patch engine: termination of its loops *)

Lemma hdr_loop_fuel (fuel : nat) (data : bytes) (byte offset size shift : Z) :
  offset <= blen data ->
  blen data - offset + 1 <= Z.of_nat fuel ->
  hdr_loop fuel data byte offset size shift <> OutOfFuel.
Proof.
  revert byte offset size shift.
  induction fuel as [|fuel IH]; intros byte offset size shift Hle Hf.
  - lia.
  - simpl. destruct (Z.land byte 128 =? 0); [discriminate|].
    destruct (py_index data offset) as [c| |] eqn:Hc; simpl; try discriminate.
    + apply py_index_Ok_lt in Hc. apply IH; lia.
    + unfold py_index in Hc.
      repeat match type of Hc with
             | context [if ?b then _ else _] => destruct b
             | context [match ?o with Some _ => _ | None => _ end] => destruct o
             end; discriminate.
Qed.

Lemma get_delta_hdr_size_fuel (data : bytes) (offset : Z) :
  get_delta_hdr_size data offset <> OutOfFuel.
Proof.
  unfold get_delta_hdr_size.
  destruct (py_index data offset) as [c| |] eqn:Hc; simpl; try discriminate.
  - apply py_index_Ok_lt in Hc. apply hdr_loop_fuel; lia.
  - unfold py_index in Hc.
    repeat match type of Hc with
           | context [if ?b then _ else _] => destruct b
           | context [match ?o with Some _ => _ | None => _ end] => destruct o
           end; discriminate.
Qed.

Lemma hdr_loop_offset (fuel : nat) (data : bytes) (byte offset size shift : Z)
  (size' offset' : Z) :
  hdr_loop fuel data byte offset size shift = Ok (size', offset') ->
  offset <= offset'.
Proof.
  revert byte offset size shift.
  induction fuel as [|fuel IH]; intros byte offset size shift; simpl.
  - destruct (Z.land byte 128 =? 0); [|discriminate]. intros [= _ <-]. lia.
  - destruct (Z.land byte 128 =? 0); [intros [= _ <-]; lia|].
    intros H. apply bind_Ok_inv in H as (c & _ & H).
    apply IH in H. lia.
Qed.

Lemma get_delta_hdr_size_offset (data : bytes) (offset size' offset' : Z) :
  get_delta_hdr_size data offset = Ok (size', offset') -> offset < offset'.
Proof.
  unfold get_delta_hdr_size. intros H.
  apply bind_Ok_inv in H as (c & _ & H). apply hdr_loop_offset in H. lia.
Qed.

Lemma fold_left_offset (f : outcome (Z * Z) -> Z -> outcome (Z * Z)) :
  (forall a i v o, f a i = Ok (v, o) ->
     exists v0 o0, a = Ok (v0, o0) /\ o0 <= o) ->
  forall l a v o, fold_left f l a = Ok (v, o) ->
     exists v0 o0, a = Ok (v0, o0) /\ o0 <= o.
Proof.
  intros Hf l. induction l as [|i l IH]; simpl; intros a v o H.
  - exists v, o. split; [assumption|lia].
  - apply IH in H as (v1 & o1 & H & Hle).
    apply Hf in H as (v0 & o0 & -> & Hle0).
    exists v0, o0. split; [reflexivity|lia].
Qed.

Lemma copy_off_step_offset delta cmd a i v o :
  copy_off_step delta cmd a i = Ok (v, o) ->
  exists v0 o0, a = Ok (v0, o0) /\ o0 <= o.
Proof.
  unfold copy_off_step. intros H.
  apply bind_Ok_inv in H as ([v0 o0] & -> & H).
  exists v0, o0. split; [reflexivity|].
  destruct (Z.land cmd (Z.shiftl 1 i) =? 0).
  - injection H as _ <-. lia.
  - apply bind_Ok_inv in H as (c & _ & [= _ <-]). lia.
Qed.

Lemma copy_size_step_offset delta cmd a i v o :
  copy_size_step delta cmd a i = Ok (v, o) ->
  exists v0 o0, a = Ok (v0, o0) /\ o0 <= o.
Proof.
  unfold copy_size_step. intros H.
  apply bind_Ok_inv in H as ([v0 o0] & -> & H).
  exists v0, o0. split; [reflexivity|].
  destruct (Z.land cmd (Z.shiftl 16 i) =? 0).
  - injection H as _ <-. lia.
  - apply bind_Ok_inv in H as (c & _ & [= _ <-]). lia.
Qed.

Lemma copy_operands_offset delta data_off cmd offset copy_off copy_size offset' :
  copy_operands delta data_off cmd offset = Ok (copy_off, copy_size, offset') ->
  offset <= offset'.
Proof.
  unfold copy_operands. intros H.
  apply bind_Ok_inv in H as ([v1 o1] & H1 & H).
  apply bind_Ok_inv in H as ([v2 o2] & H2 & H).
  injection H as _ _ <-.
  apply (fold_left_offset _ (copy_off_step_offset delta cmd)) in H1
    as (? & ? & [= <- <-] & ?).
  apply (fold_left_offset _ (copy_size_step_offset delta cmd)) in H2
    as (? & ? & [= <- <-] & ?).
  lia.
Qed.

(** Every iteration consumes at least the opcode byte. *)
Lemma patch_step_offset ref delta data_off st st' :
  patch_step ref delta data_off st = Ok st' ->
  p_offset st + 1 <= p_offset st'.
Proof.
  unfold patch_step. intros H.
  apply bind_Ok_inv in H as (c & _ & H).
  destruct (negb (Z.land (ord c) 128 =? 0)).
  - apply bind_Ok_inv in H as ([[co cs] o] & Hops & H).
    apply copy_operands_offset in Hops.
    destruct (blen ref <? co + cs); [discriminate|].
    destruct (p_remaining st <? cs); [discriminate|].
    injection H as <-. simpl. lia.
  - destruct (0 <? ord c) eqn:Hpos; [|discriminate].
    destruct (p_remaining st <? ord c); [discriminate|].
    injection H as <-. simpl. lia.
Qed.

Lemma patch_loop_fuel_irrel ref delta data_off (f1 f2 : nat) (st : pstate) :
  blen delta - p_offset st <= Z.of_nat f1 ->
  blen delta - p_offset st <= Z.of_nat f2 ->
  patch_loop f1 ref delta data_off st = patch_loop f2 ref delta data_off st.
Proof.
  revert f2 st. induction f1 as [|f1 IH]; intros f2 st H1 H2.
  - destruct f2; simpl; destruct (p_offset st <? blen delta) eqn:Hlt;
      try reflexivity; lia.
  - destruct f2; simpl; destruct (p_offset st <? blen delta) eqn:Hlt;
      try reflexivity; try lia.
    destruct (patch_step ref delta data_off st) as [st'| |] eqn:Hs;
      simpl; try reflexivity.
    apply patch_step_offset in Hs. apply IH; lia.
Qed.

Lemma py_index_fuel (s : bytes) (i : Z) : py_index s i <> OutOfFuel.
Proof.
  unfold py_index.
  repeat match goal with
         | |- context [if ?b then _ else _] => destruct b
         | |- context [match ?o with Some _ => _ | None => _ end] => destruct o
         end; discriminate.
Qed.

Lemma fold_left_fuel {A} (f : outcome A -> Z -> outcome A) :
  (forall a i, a <> OutOfFuel -> f a i <> OutOfFuel) ->
  forall l a, a <> OutOfFuel -> fold_left f l a <> OutOfFuel.
Proof.
  intros Hf l. induction l as [|i l IH]; simpl; intros a Ha.
  - assumption.
  - apply IH, Hf, Ha.
Qed.

Lemma copy_operands_fuel delta data_off cmd offset :
  copy_operands delta data_off cmd offset <> OutOfFuel.
Proof.
  assert (Hoff : forall a i, a <> OutOfFuel ->
                   copy_off_step delta cmd a i <> OutOfFuel).
  { intros [[v o]| |] i Ha; simpl; try discriminate; try congruence.
    destruct (Z.land cmd (Z.shiftl 1 i) =? 0); [discriminate|].
    pose proof (py_index_fuel delta o).
    destruct (py_index delta o); simpl; congruence. }
  assert (Hsz : forall a i, a <> OutOfFuel ->
                   copy_size_step delta cmd a i <> OutOfFuel).
  { intros [[v o]| |] i Ha; simpl; try discriminate; try congruence.
    destruct (Z.land cmd (Z.shiftl 16 i) =? 0); [discriminate|].
    pose proof (py_index_fuel delta o).
    destruct (py_index delta o); simpl; congruence. }
  unfold copy_operands.
  pose proof (fold_left_fuel _ Hoff [0; 1; 2; 3] (Ok (data_off, offset))) as H1.
  destruct (fold_left (copy_off_step delta cmd) [0; 1; 2; 3]
              (Ok (data_off, offset))) as [[v1 o1]| |]; cbn [bind];
    [|discriminate|exfalso; apply H1; [discriminate|reflexivity]].
  pose proof (fold_left_fuel _ Hsz [0; 1; 2] (Ok (0, o1))) as H2.
  destruct (fold_left (copy_size_step delta cmd) [0; 1; 2] (Ok (0, o1)))
    as [[v2 o2]| |]; cbn [bind];
    [discriminate|discriminate|exfalso; apply H2; [discriminate|reflexivity]].
Qed.

Lemma patch_step_fuel ref delta data_off st :
  patch_step ref delta data_off st <> OutOfFuel.
Proof.
  unfold patch_step.
  pose proof (py_index_fuel delta (p_offset st)).
  destruct (py_index delta (p_offset st)) as [c| |]; simpl;
    [|discriminate|congruence].
  destruct (negb (Z.land (ord c) 128 =? 0)).
  - pose proof (copy_operands_fuel delta data_off (ord c) (p_offset st + 1)).
    destruct (copy_operands delta data_off (ord c) (p_offset st + 1))
      as [[[co cs] o]| |]; simpl; [|discriminate|congruence].
    destruct (blen ref <? co + cs); [discriminate|].
    destruct (p_remaining st <? cs); discriminate.
  - destruct (0 <? ord c); [|discriminate].
    destruct (p_remaining st <? ord c); discriminate.
Qed.

(** The opcode loop always finishes: with the fuel [patch_delta] gives it,
    the model never cuts it short. *)
Lemma patch_loop_terminates ref delta data_off (fuel : nat) (st : pstate) :
  blen delta - p_offset st <= Z.of_nat fuel ->
  patch_loop fuel ref delta data_off st <> OutOfFuel.
Proof.
  revert st. induction fuel as [|fuel IH]; intros st Hf; simpl;
    destruct (p_offset st <? blen delta) eqn:Hlt; try discriminate; try lia.
  pose proof (patch_step_fuel ref delta data_off st).
  destruct (patch_step ref delta data_off st) as [st'| |] eqn:Hs; simpl.
  - apply patch_step_offset in Hs. apply IH. lia.
  - discriminate.
  - congruence.
Qed.

Lemma loop_reaches_offset ref delta data_off st st' :
  loop_reaches ref delta data_off st st' -> p_offset st <= p_offset st'.
Proof.
  induction 1 as [|st st1 st2 _ Hs _ IH]; [lia|].
  apply patch_step_offset in Hs. lia.
Qed.

Lemma patch_loop_next ref delta data_off (fuel : nat) st st' :
  p_offset st < blen delta ->
  patch_step ref delta data_off st = Ok st' ->
  patch_loop (S fuel) ref delta data_off st
  = patch_loop fuel ref delta data_off st'.
Proof.
  intros Hlt Hs. simpl.
  destruct (p_offset st <? blen delta) eqn:Hb; [|lia].
  rewrite Hs. reflexivity.
Qed.

(** Running the loop from [st0] is running it from any state it reaches. *)
Lemma loop_reaches_run ref delta data_off (fuel : nat) st0 st :
  loop_reaches ref delta data_off st0 st ->
  blen delta - p_offset st0 <= Z.of_nat fuel ->
  patch_loop fuel ref delta data_off st0 = patch_loop fuel ref delta data_off st.
Proof.
  induction 1 as [|st st1 st2 Hlt Hs Hr IH]; intros Hf; [reflexivity|].
  pose proof (patch_step_offset _ _ _ _ _ Hs) as Hoff.
  rewrite <- IH by lia.
  destruct fuel as [|fuel]; [lia|].
  rewrite (patch_loop_next _ _ _ _ _ _ Hlt Hs).
  apply patch_loop_fuel_irrel; lia.
Qed.

Lemma patch_prologue_offset ref delta data_off result_size st0 :
  patch_prologue ref delta = Ok (data_off, result_size, st0) ->
  0 < p_offset st0 /\ data_off = py_find ref NUL + 1.
Proof.
  unfold patch_prologue. intros H.
  apply bind_Ok_inv in H as ([src o1] & H1 & H).
  destruct (negb (src =? blen ref - (py_find ref NUL + 1))); [discriminate|].
  apply bind_Ok_inv in H as ([rs o2] & H2 & H).
  injection H as <- <- <-. simpl.
  apply get_delta_hdr_size_offset in H1, H2. split; [lia|reflexivity].
Qed.

(** [patch_delta] seen from a state at the head of its loop. *)
Lemma patch_delta_from ref delta data_off st :
  at_loop_head ref delta data_off st ->
  patch_delta ref delta =
    let* st' := patch_loop (length delta) ref delta data_off st in
    if negb (p_remaining st' =? 0)
    then Raise (ValueError "didn't fill output buffer")
    else Ok (concat (p_result st')).
Proof.
  intros (rs & st0 & Hp & Hr). unfold patch_delta. rewrite Hp. simpl.
  apply patch_prologue_offset in Hp as [Hpos _].
  rewrite (loop_reaches_run _ _ _ _ _ _ Hr); [reflexivity|].
  unfold blen. lia.
Qed.

Lemma patch_delta_step_raise ref delta data_off st e :
  at_loop_head ref delta data_off st ->
  p_offset st < blen delta ->
  patch_step ref delta data_off st = Raise e ->
  patch_delta ref delta = Raise e.
Proof.
  intros Hh Hlt Hs. rewrite (patch_delta_from _ _ _ _ Hh).
  destruct (length delta) as [|n] eqn:Hn; [unfold blen in Hlt|].
  - destruct Hh as (rs & st0 & Hp & Hr).
    apply patch_prologue_offset in Hp as [Hpos _].
    apply loop_reaches_offset in Hr. lia.
  - simpl. destruct (p_offset st <? blen delta) eqn:Hb; [|lia].
    rewrite Hs. reflexivity.
Qed.

(** ** Slices and searches *)

Lemma py_find_range (s : bytes) (c : ascii) : -1 <= py_find s c < blen s.
Proof.
  induction s as [|x s IH]; simpl.
  - unfold blen; simpl; lia.
  - unfold blen in *. simpl length. destruct (Ascii.eqb x c); [lia|].
    destruct (py_find s c <? 0) eqn:H; lia.
Qed.

Lemma clamp_in_range (n i : Z) : 0 <= i <= n -> clamp n i = i.
Proof.
  intros H. unfold clamp.
  destruct (i <? 0) eqn:H0; [lia|]. rewrite H0.
  destruct (n <? i) eqn:H1; [lia|]. reflexivity.
Qed.

Lemma py_slice_in_range (s : bytes) (i j : Z) :
  0 <= i <= j -> j <= blen s ->
  py_slice s i j = firstn (Z.to_nat (j - i)) (skipn (Z.to_nat i) s).
Proof.
  intros Hi Hj. unfold py_slice. rewrite !clamp_in_range by lia. reflexivity.
Qed.

Lemma py_slice_length (s : bytes) (i j : Z) :
  0 <= i <= j -> j <= blen s -> blen (py_slice s i j) = j - i.
Proof.
  intros Hi Hj. rewrite py_slice_in_range by assumption.
  unfold blen in *. rewrite length_firstn, length_skipn. lia.
Qed.

Lemma py_slice_from_in_range (s : bytes) (i : Z) :
  0 <= i <= blen s -> py_slice_from s i = skipn (Z.to_nat i) s.
Proof.
  intros Hi. unfold py_slice_from. rewrite py_slice_in_range by lia.
  apply firstn_all2. unfold blen in *. rewrite length_skipn. lia.
Qed.

(** The payload length that [patch_delta] computes, [len(ref) - data_off],
    is the length of [obj_contents(ref)]. *)
Lemma obj_contents_length (obj : bytes) :
  blen (obj_contents obj) = blen obj - (py_find obj NUL + 1).
Proof.
  unfold obj_contents. pose proof (py_find_range obj NUL).
  unfold py_slice_from. rewrite py_slice_length; lia.
Qed.

(** ** The delta patch engine rejects defective deltas *)

Lemma opcode_at_step delta st cmd :
  opcode_at delta st cmd ->
  p_offset st < blen delta /\
  exists c, py_index delta (p_offset st) = Ok c /\ ord c = cmd.
Proof. intros [Hlt (c & Hc & ->)]. eauto. Qed.

(** C1. [patch_delta] raises on every delta with one of the listed
    defects: a declared base size different from the length of the base
    payload; a copy opcode whose offset + length goes beyond the base
    payload; a copy or an insert opcode longer than the remaining output
    budget; a zero opcode; a stream that ends with a remaining budget
    other than 0.  The exception raised is the one of the defect. *)
Theorem patch_delta_rejects (ref delta : bytes) (e : exn) :
  delta_defect ref delta e -> patch_delta ref delta = Raise e.
Proof.
  intros Hd. destruct Hd as
    [ src off Hh Hne
    | data_off st cmd co cs off Hh Hop Hcopy Hops Hover
    | data_off st cmd co cs off Hh Hop Hcopy Hops Hover
    | data_off st cmd Hh Hop Hins Hover Hpos
    | data_off st Hh Hop
    | data_off st Hh Hend Hrem ].
  - (* size mismatch *)
    unfold patch_delta, patch_prologue. rewrite Hh. cbn [bind].
    rewrite obj_contents_length in Hne.
    destruct (src =? blen ref - (py_find ref NUL + 1)) eqn:He; [lia|].
    reflexivity.
  - (* copy beyond the base *)
    apply opcode_at_step in Hop as [Hlt (c & Hc & <-)].
    apply (patch_delta_step_raise _ _ _ _ _ Hh Hlt).
    unfold patch_step. rewrite Hc. cbn [bind].
    destruct (Z.land (ord c) 128 =? 0) eqn:Hb; [lia|]. cbn [negb].
    rewrite Hops. cbn [bind].
    destruct Hh as (rs & st0 & Hp & _).
    apply patch_prologue_offset in Hp as [_ ->].
    rewrite obj_contents_length in Hover.
    destruct (blen ref <? co + cs) eqn:Hr; [reflexivity|lia].
  - (* copy beyond the budget *)
    apply opcode_at_step in Hop as [Hlt (c & Hc & <-)].
    apply (patch_delta_step_raise _ _ _ _ _ Hh Hlt).
    unfold patch_step. rewrite Hc. cbn [bind].
    destruct (Z.land (ord c) 128 =? 0) eqn:Hb; [lia|]. cbn [negb].
    rewrite Hops. cbn [bind].
    destruct (blen ref <? co + cs) eqn:Hr; [reflexivity|].
    destruct (p_remaining st <? cs) eqn:Hq; [reflexivity|lia].
  - (* insert beyond the budget *)
    apply opcode_at_step in Hop as [Hlt (c & Hc & <-)].
    apply (patch_delta_step_raise _ _ _ _ _ Hh Hlt).
    unfold patch_step. rewrite Hc. cbn [bind].
    rewrite Hins. cbn [Z.eqb negb].
    destruct (0 <? ord c) eqn:Hz; [|lia].
    destruct (p_remaining st <? ord c) eqn:Hq; [reflexivity|lia].
  - (* zero opcode *)
    apply opcode_at_step in Hop as [Hlt (c & Hc & Hz)].
    apply (patch_delta_step_raise _ _ _ _ _ Hh Hlt).
    unfold patch_step. rewrite Hc. cbn [bind]. rewrite Hz. reflexivity.
  - (* incomplete output *)
    rewrite (patch_delta_from _ _ _ _ Hh).
    assert (Hl : patch_loop (length delta) ref delta data_off st = Ok st).
    { destruct (length delta); simpl;
        destruct (p_offset st <? blen delta) eqn:Hb; try reflexivity; lia. }
    rewrite Hl. cbn [bind].
    destruct (p_remaining st =? 0) eqn:Hz; [lia|]. reflexivity.
Qed.

Lemma patch_delta_rejects_witness :
  patch_delta blob_abc delta_bad_base_size = Raise (ValueError "size mismatch")
  /\ patch_delta blob_abc delta_copy_range = Raise (ValueError "size overflow")
  /\ patch_delta blob_abc delta_copy_budget
     = Raise (ValueError "output size overflow")
  /\ patch_delta blob_abc delta_insert_budget
     = Raise (ValueError "output size overflow")
  /\ patch_delta blob_abc delta_zero_opcode
     = Raise (ValueError "caught zero command")
  /\ patch_delta blob_abc delta_incomplete
     = Raise (ValueError "didn't fill output buffer").
Proof.
  assert (Hhead : forall delta rs st0,
            patch_prologue blob_abc delta = Ok (7, rs, st0) ->
            at_loop_head blob_abc delta 7 st0).
  { intros delta rs st0 H. exists rs, st0. split; [exact H|constructor]. }
  repeat apply conj.
  - apply patch_delta_rejects.
    apply (defect_base_size _ _ 5 1); [reflexivity|vm_compute; discriminate].
  - apply patch_delta_rejects.
    apply (defect_copy_range _ _ 7
             (PState 2 5 [envelope_hdr (lit "blob") 5]) 145 9 4 5).
    + eapply Hhead. reflexivity.
    + split; [reflexivity|]. eexists. split; reflexivity.
    + discriminate.
    + reflexivity.
    + reflexivity.
  - apply (patch_delta_rejects blob_abc delta_copy_budget).
    apply (defect_copy_budget blob_abc delta_copy_budget 7
             (PState 2 1 [envelope_hdr (lit "blob") 1]) 144 7 2 4).
    + eapply Hhead. reflexivity.
    + split; [reflexivity|]. eexists. split; reflexivity.
    + discriminate.
    + reflexivity.
    + reflexivity.
  - apply patch_delta_rejects.
    apply (defect_insert_budget _ _ 7
             (PState 2 1 [envelope_hdr (lit "blob") 1]) 2).
    + eapply Hhead. reflexivity.
    + split; [reflexivity|]. eexists. split; reflexivity.
    + reflexivity.
    + reflexivity.
    + reflexivity.
  - apply patch_delta_rejects.
    apply (defect_zero_opcode _ _ 7
             (PState 4 4 [envelope_hdr (lit "blob") 5; lit "x"])).
    + exists 5, (PState 2 5 [envelope_hdr (lit "blob") 5]).
      split; [reflexivity|].
      eapply reach_next; [reflexivity|reflexivity|constructor].
    + split; [reflexivity|]. eexists. split; reflexivity.
  - apply patch_delta_rejects.
    apply (defect_incomplete _ _ 7
             (PState 4 4 [envelope_hdr (lit "blob") 5; lit "x"])).
    + exists 5, (PState 2 5 [envelope_hdr (lit "blob") 5]).
      split; [reflexivity|].
      eapply reach_next; [reflexivity|reflexivity|constructor].
    + vm_compute. discriminate.
    + discriminate.
Defined.

(** [patch_delta] always finishes. *)
Lemma patch_delta_terminates (ref delta : bytes) :
  patch_delta ref delta <> OutOfFuel.
Proof.
  unfold patch_delta.
  destruct (patch_prologue ref delta) as [[[data_off rs] st0]| |] eqn:Hp;
    cbn [bind]; [|discriminate|].
  - pose proof (patch_loop_terminates ref delta data_off (length delta) st0)
      as Hl.
    apply patch_prologue_offset in Hp as [Hpos _].
    destruct (patch_loop (length delta) ref delta data_off st0) as [st| |];
      cbn [bind].
    + destruct (negb (p_remaining st =? 0)); discriminate.
    + discriminate.
    + exfalso. apply Hl; [unfold blen; lia|reflexivity].
  - exfalso. unfold patch_prologue in Hp.
    pose proof (get_delta_hdr_size_fuel delta 0) as H0.
    destruct (get_delta_hdr_size delta 0) as [[src o1]| |]; cbn [bind] in Hp;
      [|discriminate|congruence].
    destruct (negb (src =? blen ref - (py_find ref NUL + 1)));
      [discriminate|].
    pose proof (get_delta_hdr_size_fuel delta o1) as H1.
    destruct (get_delta_hdr_size delta o1) as [[rs o2]| |]; cbn [bind] in Hp;
      [discriminate|discriminate|congruence].
Qed.

(** C2. The insert opcode of [delta_short_insert] announces 5 bytes and
    the stream holds only 1: [patch_delta] returns normally an object that
    declares 5 bytes of payload and carries 1. *)
Theorem patch_delta_short_insert :
  patch_delta blob_empty delta_short_insert
    = Ok (lit "blob 5" ++ [NUL] ++ lit "a")
  /\ obj_size (lit "blob 5" ++ [NUL] ++ lit "a") = Ok 5
  /\ blen (obj_contents (lit "blob 5" ++ [NUL] ++ lit "a")) = 1.
Proof. repeat split; reflexivity. Qed.

(** ** Object codec *)

Lemma py_find_app_absent (s t : bytes) (c : ascii) :
  ~ In c s ->
  py_find (s ++ t) c
  = if py_find t c <? 0 then -1 else blen s + py_find t c.
Proof.
  induction s as [|x s IH]; intros Hn.
  - simpl. pose proof (py_find_range t c) as Hr.
    destruct (py_find t c <? 0) eqn:H; unfold blen; simpl; lia.
  - simpl. destruct (Ascii.eqb x c) eqn:Hx.
    + apply Ascii.eqb_eq in Hx. subst. exfalso. apply Hn. left. reflexivity.
    + rewrite IH by (intros Hin; apply Hn; right; exact Hin).
      pose proof (py_find_range t c) as Hr.
      destruct (py_find t c <? 0) eqn:H; [reflexivity|].
      destruct (blen s + py_find t c <? 0) eqn:H2;
        unfold blen in *; simpl length; lia.
Qed.

Lemma py_find_first (s t : bytes) (c : ascii) :
  ~ In c s -> py_find (s ++ c :: t) c = blen s.
Proof.
  intros Hn. rewrite py_find_app_absent by assumption.
  simpl. rewrite Ascii.eqb_refl. simpl. lia.
Qed.

Lemma py_find_absent (s : bytes) (c : ascii) : ~ In c s -> py_find s c = -1.
Proof.
  intros Hn. rewrite <- (app_nil_r s).
  rewrite py_find_app_absent by assumption. reflexivity.
Qed.

Lemma py_slice_app_mid (a m c : bytes) :
  py_slice (a ++ m ++ c) (blen a) (blen a + blen m) = m.
Proof.
  pose proof (blen_nonneg a). pose proof (blen_nonneg m).
  pose proof (blen_nonneg c).
  rewrite py_slice_in_range by (rewrite ?blen_app; lia).
  unfold blen. rewrite Nat2Z.id.
  rewrite skipn_app, skipn_all, Nat.sub_diag, skipn_O. simpl.
  replace (Z.to_nat (Z.of_nat (length a) + Z.of_nat (length m)
                     - Z.of_nat (length a))) with (length m) by lia.
  rewrite firstn_app, firstn_all, Nat.sub_diag, firstn_O. apply app_nil_r.
Qed.

Lemma py_slice_to_app (a r : bytes) : py_slice_to (a ++ r) (blen a) = a.
Proof.
  unfold py_slice_to.
  pose proof (py_slice_app_mid [] a r) as H. simpl in H.
  replace (blen []) with 0 in H by reflexivity. exact H.
Qed.

Lemma py_slice_from_app (a r : bytes) : py_slice_from (a ++ r) (blen a) = r.
Proof.
  pose proof (blen_nonneg a). pose proof (blen_nonneg r).
  rewrite py_slice_from_in_range by (rewrite blen_app; lia).
  unfold blen. rewrite Nat2Z.id.
  rewrite skipn_app, skipn_all, Nat.sub_diag, skipn_O. reflexivity.
Qed.

Lemma string_of_uint_digits (d : Decimal.uint) :
  Forall is_digit (list_ascii_of_string (NilEmpty.string_of_uint d)).
Proof.
  induction d; simpl; constructor; try assumption;
    unfold is_digit; vm_compute; split; discriminate.
Qed.

Lemma py_str_digits (n : Z) : 0 <= n -> Forall is_digit (py_str n).
Proof.
  intros Hn. unfold py_str.
  destruct n as [|p|p]; [| |lia]; simpl.
  - repeat constructor; vm_compute; discriminate.
  - unfold NilZero.string_of_uint.
    pose proof (string_of_uint_digits (Pos.to_uint p)) as H.
    destruct (Pos.to_uint p); try exact H.
    repeat constructor; vm_compute; discriminate.
Qed.

Lemma py_int_str (n : Z) : py_int (py_str n) = Ok n.
Proof.
  unfold py_int, py_str. rewrite string_of_list_ascii_of_string.
  rewrite NilZero.isi.
  - rewrite DecimalZ.of_to. reflexivity.
  - destruct n; simpl; try discriminate.
    intros [= H]. exact (DecimalPos.Unsigned.to_uint_nonnil _ H).
  - destruct n; simpl; try discriminate.
    intros [= H]. exact (DecimalPos.Unsigned.to_uint_nonnil _ H).
Qed.

Lemma digits_no_char (s : bytes) (c : ascii) :
  Forall is_digit s -> ~ is_digit c -> ~ In c s.
Proof.
  intros Hs Hc Hin. rewrite Forall_forall in Hs. apply Hc, Hs.
  apply list_elem_of_In. exact Hin.
Qed.

Lemma envelope_find_SP (ty : bytes) (size : Z) (payload : bytes) :
  ~ In SP ty ->
  py_find (envelope_hdr ty size ++ payload) SP = blen ty.
Proof.
  intros Hsp. unfold envelope_hdr. rewrite <- !app_assoc.
  simpl app. apply py_find_first. exact Hsp.
Qed.

Lemma envelope_find_NUL (ty : bytes) (size : Z) (payload : bytes) :
  ~ In NUL ty -> 0 <= size ->
  py_find (envelope_hdr ty size ++ payload) NUL
  = blen ty + 1 + blen (py_str size).
Proof.
  intros Hnul Hsz. unfold envelope_hdr.
  replace ((ty ++ [SP] ++ py_str size ++ [NUL]) ++ payload)
    with ((ty ++ [SP] ++ py_str size) ++ NUL :: payload)
    by (rewrite <- !app_assoc; reflexivity).
  rewrite py_find_first.
  - rewrite !blen_app. unfold blen at 2. simpl. lia.
  - rewrite !in_app_iff. intros [H|[H|H]].
    + apply Hnul, H.
    + destruct H as [H|[]]. discriminate.
    + revert H. apply digits_no_char; [apply py_str_digits, Hsz|].
      unfold is_digit. vm_compute. intros [H _]. apply H. reflexivity.
Qed.

Lemma envelope_hdr_length (ty : bytes) (size : Z) :
  blen (envelope_hdr ty size) = blen ty + 1 + blen (py_str size) + 1.
Proof.
  unfold envelope_hdr. rewrite !blen_app. unfold blen at 2 4. simpl. lia.
Qed.

Lemma obj_type_envelope (ty : bytes) (size : Z) (payload : bytes) :
  ~ In SP ty -> obj_type (envelope_hdr ty size ++ payload) = ty.
Proof.
  intros Hsp. unfold obj_type. rewrite envelope_find_SP by assumption.
  unfold envelope_hdr. rewrite <- !app_assoc. apply py_slice_to_app.
Qed.

Lemma obj_size_envelope (ty : bytes) (size : Z) (payload : bytes) :
  ~ In SP ty -> ~ In NUL ty -> 0 <= size ->
  obj_size (envelope_hdr ty size ++ payload) = Ok size.
Proof.
  intros Hsp Hnul Hsz. unfold obj_size.
  rewrite envelope_find_SP, envelope_find_NUL by assumption.
  unfold envelope_hdr.
  replace ((ty ++ [SP] ++ py_str size ++ [NUL]) ++ payload)
    with ((ty ++ [SP]) ++ py_str size ++ ([NUL] ++ payload))
    by (rewrite <- !app_assoc; reflexivity).
  replace (blen ty + 1) with (blen (ty ++ [SP]))
    by (rewrite blen_app; reflexivity).
  rewrite py_slice_app_mid. apply py_int_str.
Qed.

Lemma obj_contents_envelope (ty : bytes) (size : Z) (payload : bytes) :
  ~ In NUL ty -> 0 <= size ->
  obj_contents (envelope_hdr ty size ++ payload) = payload.
Proof.
  intros Hnul Hsz. unfold obj_contents.
  rewrite envelope_find_NUL by assumption.
  rewrite <- envelope_hdr_length. apply py_slice_from_app.
Qed.

(** C8. Extraction inverts the construction of the envelope: on the bytes
    [type + ' ' + str(len(payload)) + '\0' + payload], where the type has
    no space and no NUL, [obj_type], [obj_size] and [obj_contents] return
    the type, the payload length and the payload; building the envelope
    again from what was extracted gives the same object. *)
Theorem envelope_roundtrip (ty payload : bytes) :
  ~ In SP ty -> ~ In NUL ty ->
  obj_type (envelope ty payload) = ty
  /\ obj_size (envelope ty payload) = Ok (blen payload)
  /\ obj_contents (envelope ty payload) = payload
  /\ envelope (obj_type (envelope ty payload))
              (obj_contents (envelope ty payload))
     = envelope ty payload.
Proof.
  intros Hsp Hnul. pose proof (blen_nonneg payload) as Hlen.
  assert (Ht : obj_type (envelope ty payload) = ty)
    by (apply obj_type_envelope; assumption).
  assert (Hc : obj_contents (envelope ty payload) = payload)
    by (apply obj_contents_envelope; assumption).
  repeat apply conj.
  - exact Ht.
  - apply obj_size_envelope; assumption.
  - exact Hc.
  - rewrite Ht, Hc. reflexivity.
Qed.

Lemma envelope_roundtrip_witness :
  obj_type (envelope (lit "blob") (lit "hello")) = lit "blob"
  /\ obj_size (envelope (lit "blob") (lit "hello")) = Ok 5
  /\ obj_contents (envelope (lit "blob") (lit "hello")) = lit "hello"
  /\ envelope (obj_type (envelope (lit "blob") (lit "hello")))
              (obj_contents (envelope (lit "blob") (lit "hello")))
     = envelope (lit "blob") (lit "hello").
Proof.
  apply (envelope_roundtrip (lit "blob") (lit "hello")).
  - simpl. intros H. decompose [or] H; discriminate || assumption.
  - simpl. intros H. decompose [or] H; discriminate || assumption.
Defined.

(** ** Extraction does not validate the envelope *)

Lemma py_slice_to_minus_one (s : bytes) : py_slice_to s (-1) = removelast s.
Proof.
  pose proof (blen_nonneg s) as Hs.
  assert (Hc : clamp (blen s) (-1) = Z.max 0 (blen s - 1)).
  { unfold clamp. change (-1 <? 0) with true. cbv iota.
    destruct (-1 + blen s <? 0) eqn:H1; [lia|].
    destruct (blen s <? -1 + blen s) eqn:H2; lia. }
  unfold py_slice_to, py_slice.
  rewrite (clamp_in_range (blen s) 0) by lia. rewrite Hc.
  change (Z.to_nat 0) with 0%nat. rewrite skipn_O.
  rewrite removelast_firstn_len. f_equal. unfold blen. lia.
Qed.

(** C9, as the code has it.  The extraction functions check nothing:
    without a space [obj_type] returns all the bytes but the last, without
    a NUL [obj_contents] returns the whole string, and [obj_size] returns
    the declared size whatever the length of the payload. *)
Theorem extraction_unchecked :
  (forall obj, ~ In SP obj -> obj_type obj = removelast obj)
  /\ (forall obj, ~ In NUL obj -> obj_contents obj = obj)
  /\ (forall ty size payload,
        ~ In SP ty -> ~ In NUL ty -> 0 <= size ->
        extract (envelope_hdr ty size ++ payload) = Ok (ty, size, payload)).
Proof.
  repeat apply conj.
  - intros obj Hsp. unfold obj_type. rewrite py_find_absent by assumption.
    apply py_slice_to_minus_one.
  - intros obj Hnul. unfold obj_contents.
    rewrite py_find_absent by assumption. simpl.
    rewrite py_slice_from_in_range by (pose proof (blen_nonneg obj); lia).
    reflexivity.
  - intros ty size payload Hsp Hnul Hsz. unfold extract.
    rewrite obj_size_envelope by assumption. cbn [bind].
    rewrite obj_type_envelope, obj_contents_envelope by assumption.
    reflexivity.
Qed.

Lemma extraction_unchecked_witness :
  obj_type (lit "blob") = lit "blo"
  /\ obj_contents (lit "blob 3") = lit "blob 3"
  /\ extract (envelope_hdr (lit "blob") 5 ++ lit "a")
     = Ok (lit "blob", 5, lit "a").
Proof.
  destruct extraction_unchecked as (Htype & Hcontents & Hsize).
  repeat apply conj.
  - apply (Htype (lit "blob")).
    simpl. intros H. decompose [or] H; discriminate || assumption.
  - apply (Hcontents (lit "blob 3")).
    simpl. intros H. decompose [or] H; discriminate || assumption.
  - apply (Hsize (lit "blob") 5 (lit "a")).
    + simpl. intros H. decompose [or] H; discriminate || assumption.
    + simpl. intros H. decompose [or] H; discriminate || assumption.
    + lia.
Defined.

(** The claim as the specification states it fails: the object
    ["blob 5\0a"] declares 5 bytes and carries 1, and is extracted without
    an error; so are ["12\0abc"], which has no space, and ["blob 12"],
    which has no NUL. *)
Lemma extraction_accepts_malformed :
  ~ (forall obj, malformed obj -> raises (extract obj))
  /\ extract (lit "blob 5" ++ [NUL] ++ lit "a") = Ok (lit "blob", 5, lit "a")
  /\ extract (lit "12" ++ [NUL] ++ lit "abc")
     = Ok (lit "12" ++ [NUL] ++ lit "ab", 12, lit "abc")
  /\ extract (lit "blob 12") = Ok (lit "blob", 1, lit "blob 12").
Proof.
  repeat apply conj; try reflexivity.
  intros H.
  assert (Hm : malformed (lit "blob 5" ++ [NUL] ++ lit "a")).
  { right. right. exists 5. split; [reflexivity|]. vm_compute. discriminate. }
  destruct (H _ Hm) as [e He]. vm_compute in He. discriminate.
Qed.

(** ** Pack index: byte strings *)

Lemma ord_range (c : ascii) : 0 <= ord c < 256.
Proof.
  unfold ord. pose proof (N_ascii_bounded c). lia.
Qed.

Lemma ord_inj (x y : ascii) : ord x = ord y -> x = y.
Proof.
  unfold ord. intros H. apply N2Z.inj in H.
  rewrite <- (ascii_N_embedding x), <- (ascii_N_embedding y), H. reflexivity.
Qed.

Lemma ord_chr (n : Z) : 0 <= n < 256 -> ord (chr n) = n.
Proof.
  intros Hn. unfold ord, chr. rewrite N_ascii_embedding by lia. lia.
Qed.

Lemma bytes_eqb_eq (s t : bytes) : bytes_eqb s t = true <-> s = t.
Proof.
  revert t. induction s as [|x s IH]; intros [|y t]; simpl;
    try (split; [discriminate|discriminate]); try (split; reflexivity).
  rewrite andb_true_iff, Ascii.eqb_eq, IH. split.
  - intros [-> ->]. reflexivity.
  - intros [= -> ->]. split; reflexivity.
Qed.

Lemma bytes_compare_refl (s : bytes) : bytes_compare s s = Eq.
Proof.
  induction s as [|x s IH]; simpl; [reflexivity|].
  rewrite Z.compare_refl. exact IH.
Qed.

Lemma bytes_compare_eq (s t : bytes) : bytes_compare s t = Eq -> s = t.
Proof.
  revert t. induction s as [|x s IH]; intros [|y t]; simpl;
    try reflexivity; try discriminate.
  destruct (ord x ?= ord y) eqn:Hc; try discriminate.
  intros H. apply Z.compare_eq in Hc. apply ord_inj in Hc.
  rewrite Hc, (IH t H). reflexivity.
Qed.

Lemma bytes_compare_antisym (s t : bytes) :
  bytes_compare t s = CompOpp (bytes_compare s t).
Proof.
  revert t. induction s as [|x s IH]; intros [|y t]; simpl; try reflexivity.
  rewrite (Z.compare_antisym (ord x) (ord y)).
  destruct (ord x ?= ord y); simpl; try reflexivity. apply IH.
Qed.

Lemma bytes_lt_neq (s t : bytes) : bytes_lt s t -> s <> t.
Proof.
  unfold bytes_lt. intros H ->. rewrite bytes_compare_refl in H. discriminate.
Qed.

Lemma be_value_nonneg (s : bytes) : 0 <= be_value s.
Proof.
  unfold be_value.
  assert (H : forall acc, 0 <= acc ->
                0 <= fold_left (fun a c => a * 256 + ord c) s acc).
  { induction s as [|c s IH]; simpl; intros acc Ha; [exact Ha|].
    apply IH. pose proof (ord_range c). lia. }
  apply H. lia.
Qed.

(** ** Pack index: slices *)

Lemma py_slice_firstn (s : bytes) (i a k : Z) :
  0 <= i -> 0 <= a -> 0 <= k -> i + a + k <= blen s ->
  firstn (Z.to_nat a) (py_slice s i (i + a + k)) = py_slice s i (i + a).
Proof.
  intros Hi Ha Hk Hle. rewrite !py_slice_in_range by lia.
  rewrite firstn_firstn. f_equal. lia.
Qed.

Lemma py_slice_skipn (s : bytes) (i a k : Z) :
  0 <= i -> 0 <= a -> 0 <= k -> i + a + k <= blen s ->
  skipn (Z.to_nat a) (py_slice s i (i + a + k))
  = py_slice s (i + a) (i + a + k).
Proof.
  intros Hi Ha Hk Hle. rewrite !py_slice_in_range by lia.
  rewrite skipn_firstn_comm, skipn_skipn. f_equal; [lia|]. f_equal. lia.
Qed.

Lemma unpack_I_slice (s : bytes) (i : Z) :
  0 <= i -> i + 4 <= blen s ->
  unpack_I (py_slice s i (i + 4)) = Ok (be_value (py_slice s i (i + 4))).
Proof.
  intros Hi Hle. unfold unpack_I.
  rewrite py_slice_length by lia.
  replace (i + 4 - i) with 4 by lia. reflexivity.
Qed.

Lemma unpack_II_slice (s : bytes) (i : Z) :
  0 <= i -> i + 8 <= blen s ->
  unpack_II (py_slice s i (i + 8))
  = Ok (be_value (py_slice s i (i + 4)),
        be_value (py_slice s (i + 4) (i + 8))).
Proof.
  intros Hi Hle. unfold unpack_II.
  rewrite py_slice_length by lia.
  replace (i + 8 - i) with 8 by lia. cbn [Z.eqb Pos.eqb].
  pose proof (py_slice_firstn s i 4 4) as Hf.
  pose proof (py_slice_skipn s i 4 4) as Hs.
  replace (i + 4 + 4) with (i + 8) in Hf, Hs by lia.
  change (Z.to_nat 4) with 4%nat in Hf, Hs.
  rewrite Hf, Hs by lia. reflexivity.
Qed.

(** ** Pack index: the scan and the fan-out table *)

Lemma py_range_In (lo hi ix : Z) : In ix (py_range lo hi) <-> lo <= ix < hi.
Proof.
  unfold py_range. rewrite in_map_iff. split.
  - intros (k & <- & Hk). apply in_seq in Hk. lia.
  - intros H. exists (Z.to_nat (ix - lo)). split; [lia|].
    apply in_seq. lia.
Qed.

Lemma linear_scan_Some (idx h : bytes) (lo hi ix : Z) :
  linear_scan idx h lo hi = Some ix -> lo <= ix < hi /\ hash_at idx ix = h.
Proof.
  unfold linear_scan. intros H. apply find_some in H as [Hin Heq].
  apply py_range_In in Hin. apply bytes_eqb_eq in Heq. auto.
Qed.

Lemma linear_scan_None (idx h : bytes) (lo hi : Z) :
  linear_scan idx h lo hi = None ->
  forall ix, lo <= ix < hi -> hash_at idx ix <> h.
Proof.
  unfold linear_scan. intros H ix Hix Heq.
  pose proof (find_none _ _ H ix (proj2 (py_range_In lo hi ix) Hix)) as Hn.
  simpl in Hn. apply bytes_eqb_eq in Heq. congruence.
Qed.

Lemma fanout_nonneg (idx : bytes) (b : Z) : 0 <= fanout idx b.
Proof. apply be_value_nonneg. Qed.

Lemma fanout_mono (idx : bytes) :
  wf_index idx ->
  forall a b, 0 <= a <= b -> b <= 255 -> fanout idx a <= fanout idx b.
Proof.
  intros Hwf a b Ha Hb.
  replace b with (a + Z.of_nat (Z.to_nat (b - a))) in * by lia.
  induction (Z.to_nat (b - a)) as [|n IH]; [rewrite Z.add_0_r; lia|].
  rewrite Nat2Z.inj_succ in *.
  replace (a + Z.succ (Z.of_nat n)) with (a + Z.of_nat n + 1) in * by lia.
  pose proof (wf_fanout idx Hwf (a + Z.of_nat n)). lia.
Qed.

Lemma unpack_I_fanout (idx : bytes) (b : Z) :
  1032 <= blen idx -> 0 <= b <= 255 ->
  unpack_I (py_slice idx (8 + 4 * b) (12 + 4 * b)) = Ok (fanout idx b).
Proof.
  intros Hlen Hb. unfold fanout.
  replace (12 + 4 * b) with (8 + 4 * b + 4) by lia.
  apply unpack_I_slice; lia.
Qed.

Lemma unpack_I_n_objects (idx : bytes) :
  1032 <= blen idx ->
  unpack_I (py_slice idx 1028 1032) = Ok (n_objects idx).
Proof.
  intros Hlen. exact (unpack_I_fanout idx 255 Hlen ltac:(lia)).
Qed.

Lemma index_range_spec (idx : bytes) (b : Z) :
  1032 <= blen idx -> 0 <= b <= 255 ->
  index_range idx b
  = Ok (if b =? 0 then 0 else fanout idx (b - 1), fanout idx b).
Proof.
  intros Hlen Hb. unfold index_range.
  destruct (b =? 0) eqn:H0.
  - apply Z.eqb_eq in H0. subst b.
    pose proof (unpack_I_fanout idx 0 Hlen ltac:(lia)) as H.
    change (8 + 4 * 0) with 8 in H. change (12 + 4 * 0) with 12 in H.
    rewrite H. reflexivity.
  - apply Z.eqb_neq in H0. cbv zeta.
    rewrite (unpack_II_slice idx (4 + 4 * b)) by lia.
    unfold fanout.
    replace (8 + 4 * (b - 1)) with (4 + 4 * b) by lia.
    replace (12 + 4 * (b - 1)) with (4 + 4 * b + 4) by lia.
    replace (8 + 4 * b) with (4 + 4 * b + 4) by lia.
    replace (12 + 4 * b) with (4 + 4 * b + 8) by lia.
    reflexivity.
Qed.

(** Within a well-formed index, a hash occurs at one place at most. *)
Lemma hash_at_unique (idx : bytes) (i j : Z) :
  wf_index idx -> 0 <= i < n_objects idx -> 0 <= j < n_objects idx ->
  hash_at idx i = hash_at idx j -> i = j.
Proof.
  intros Hwf Hi Hj Heq.
  destruct (Z.lt_trichotomy i j) as [Hlt|[->|Hgt]]; [|reflexivity|].
  - exfalso. apply (bytes_lt_neq _ _ (wf_sorted idx Hwf i j ltac:(lia) ltac:(lia))).
    exact Heq.
  - exfalso. apply (bytes_lt_neq _ _ (wf_sorted idx Hwf j i ltac:(lia) ltac:(lia))).
    symmetry. exact Heq.
Qed.

Lemma index_range_bounds (idx : bytes) (b : Z) :
  wf_index idx -> 0 <= b <= 255 ->
  0 <= (if b =? 0 then 0 else fanout idx (b - 1))
  /\ fanout idx b <= n_objects idx.
Proof.
  intros Hwf Hb. split.
  - destruct (b =? 0); [lia|apply fanout_nonneg].
  - apply fanout_mono; [assumption|lia|lia].
Qed.

Lemma index_lookup_found (idx h : bytes) (b ix : Z) :
  wf_index idx -> 0 <= b <= 255 ->
  (if b =? 0 then 0 else fanout idx (b - 1)) <= ix < fanout idx b ->
  hash_at idx ix = h ->
  index_lookup idx b h = Ok (Some (offset_at idx ix)).
Proof.
  intros Hwf Hb Hix Hh.
  pose proof (index_range_bounds idx b Hwf Hb) as [Hlo Hhi].
  pose proof (wf_size idx Hwf) as Hsz.
  pose proof (fanout_nonneg idx 255) as Hn. fold (n_objects idx) in Hn.
  unfold index_lookup. rewrite index_range_spec by lia. cbn [bind].
  destruct (linear_scan idx h _ _) as [ix'|] eqn:Hscan.
  - apply linear_scan_Some in Hscan as [Hix' Hh'].
    assert (ix' = ix) as ->
      by (apply (hash_at_unique idx); [assumption|lia|lia|congruence]).
    rewrite unpack_I_n_objects by lia. cbn [bind]. cbv zeta.
    rewrite unpack_I_slice by lia. reflexivity.
  - exfalso. exact (linear_scan_None _ _ _ _ Hscan ix Hix Hh).
Qed.

Lemma index_lookup_absent (idx h : bytes) (b : Z) :
  1032 <= blen idx -> 0 <= b <= 255 ->
  (forall ix, (if b =? 0 then 0 else fanout idx (b - 1)) <= ix < fanout idx b ->
              hash_at idx ix <> h) ->
  index_lookup idx b h = Ok None.
Proof.
  intros Hlen Hb Hno. unfold index_lookup.
  rewrite index_range_spec by lia. cbn [bind].
  destruct (linear_scan idx h _ _) as [ix'|] eqn:Hscan; [|reflexivity].
  apply linear_scan_Some in Hscan as [Hix' Hh']. exfalso.
  exact (Hno ix' Hix' Hh').
Qed.

(** ** Pack index: hashes *)

Lemma hex_digit_range (c : ascii) (d : Z) :
  hex_digit c = Some d -> 0 <= d <= 15.
Proof.
  unfold hex_digit. intros H.
  repeat match type of H with
         | context [if ?b then _ else _] => destruct b eqn:?
         end; try discriminate; injection H as <-; lia.
Qed.

Lemma unhexlify_hex (n : nat) (s : bytes) :
  length s = (2 * n)%nat -> Forall (fun c => hex_digit c <> None) s ->
  exists h, unhexlify s = Ok h /\ length h = n.
Proof.
  revert s. induction n as [|n IH]; intros s Hlen Hhex.
  - destruct s; [|discriminate]. exists []. split; reflexivity.
  - destruct s as [|x [|y s]]; try (simpl in Hlen; lia).
    inversion Hhex as [|? ? Hx Hrest]; subst.
    inversion Hrest as [|? ? Hy Hs]; subst.
    destruct (IH s) as (h & Hh & Hl); [simpl in Hlen; lia|assumption|].
    simpl. destruct (hex_digit x) as [dx|]; [|congruence].
    destruct (hex_digit y) as [dy|]; [|congruence].
    rewrite Hh. cbn [bind]. eexists. split; [reflexivity|simpl; lia].
Qed.

(** On a hash, [int(sha[:2], 16)] is the first byte of
    [binascii.unhexlify(sha)], which has 20 bytes. *)
Lemma hash_first_byte (sha : bytes) :
  is_hash sha ->
  exists b c h,
    py_int16 (py_slice_to sha 2) = Ok b /\ unhexlify sha = Ok (c :: h)
    /\ ord c = b /\ 0 <= b <= 255 /\ length (c :: h) = 20%nat.
Proof.
  intros [Hlen Hhex].
  destruct (unhexlify_hex 20 sha Hlen Hhex) as (h & Hh & Hl).
  destruct sha as [|x [|y s]]; try (simpl in Hlen; lia).
  inversion Hhex as [|? ? Hx Hrest]; subst.
  inversion Hrest as [|? ? Hy Hs]; subst.
  assert (Hsl : py_slice_to (x :: y :: s) 2 = [x; y]).
  { unfold py_slice_to. rewrite py_slice_in_range;
      [reflexivity|lia|unfold blen; simpl length; lia]. }
  rewrite Hsl. simpl in Hh |- *.
  destruct (hex_digit x) as [dx|] eqn:Hdx; [|congruence].
  destruct (hex_digit y) as [dy|] eqn:Hdy; [|congruence].
  apply hex_digit_range in Hdx, Hdy.
  destruct (unhexlify s) as [r| |]; cbn [bind] in Hh; try discriminate.
  injection Hh as <-.
  exists (dx * 16 + dy), (chr (dx * 16 + dy)), r.
  repeat apply conj; try reflexivity; try lia; try exact Hl;
    first [apply ord_chr; lia | f_equal; lia].
Qed.

(** C3. The lookup of a hash in a well-formed version-2 index: with [b]
    the first byte of the hash, the candidate range [lo, hi) is read from
    the fan-out entries [b - 1] and [b] ([lo = 0] when [b = 0]); a match
    at entry [ix] of the hash table, which starts at byte 1032, makes the
    lookup return the big-endian word at byte [1032 + 24 * N + 4 * ix],
    [N] being the final fan-out entry; without a match in the range the
    lookup returns nothing. *)
Theorem pack_index_lookup (idx sha : bytes) :
  wf_index idx -> is_hash sha ->
  exists b c h,
    py_int16 (py_slice_to sha 2) = Ok b
    /\ unhexlify sha = Ok (c :: h) /\ ord c = b
    /\ let lo := if b =? 0 then 0 else fanout idx (b - 1) in
       let hi := fanout idx b in
       index_range idx b = Ok (lo, hi)
       /\ (forall ix, lo <= ix < hi -> hash_at idx ix = c :: h ->
             lookup idx sha = Ok (Some (offset_at idx ix)))
       /\ ((forall ix, lo <= ix < hi -> hash_at idx ix <> c :: h) ->
             lookup idx sha = Ok None).
Proof.
  intros Hwf Hsha.
  destruct (hash_first_byte sha Hsha) as (b & c & h & Hb & Hh & Hc & Hr & _).
  pose proof (wf_size idx Hwf) as Hsz.
  pose proof (fanout_nonneg idx 255) as Hn. fold (n_objects idx) in Hn.
  exists b, c, h. repeat apply conj; try assumption.
  - apply index_range_spec; lia.
  - intros ix Hix Hm. unfold lookup. rewrite Hb, Hh. cbn [bind].
    apply index_lookup_found; assumption.
  - intros Hno. unfold lookup. rewrite Hb, Hh. cbn [bind].
    apply index_lookup_absent; [lia|assumption|assumption].
Qed.

Lemma wf_indexb_sound (idx : bytes) : wf_indexb idx = true -> wf_index idx.
Proof.
  unfold wf_indexb. rewrite !andb_true_iff, !forallb_forall.
  intros [[Hsz Hfan] Hsort]. split.
  - lia.
  - intros b Hb. apply Z.leb_le, Hfan, py_range_In. lia.
  - intros i j Hi Hj.
    assert (Hin : In i (py_range 0 (n_objects idx)))
      by (apply py_range_In; lia).
    specialize (Hsort i Hin). rewrite forallb_forall in Hsort.
    assert (Hjn : In j (py_range (i + 1) (n_objects idx)))
      by (apply py_range_In; lia).
    specialize (Hsort j Hjn). unfold bytes_lt.
    destruct (bytes_compare (hash_at idx i) (hash_at idx j));
      [discriminate|reflexivity|discriminate].
Qed.

Lemma index_bytes_wf : wf_index index_bytes.
Proof. apply wf_indexb_sound. vm_compute. reflexivity. Qed.

Lemma sha_b_is_hash : is_hash sha_b.
Proof.
  split; [reflexivity|]. vm_compute.
  repeat (constructor; [discriminate|]). constructor.
Qed.

Lemma sha_absent_is_hash : is_hash sha_absent.
Proof.
  split; [reflexivity|]. vm_compute.
  repeat (constructor; [discriminate|]). constructor.
Qed.

Lemma pack_index_lookup_witness :
  lookup index_bytes sha_b = Ok (Some 300)
  /\ lookup index_bytes sha_absent = Ok None.
Proof.
  split.
  - destruct (pack_index_lookup index_bytes sha_b index_bytes_wf sha_b_is_hash)
      as (b & c & h & Hb & Hh & _ & _ & Hfound & _).
    vm_compute in Hb. injection Hb as <-.
    change (Ok (Some 300)) with (Ok (A := option Z) (Some (offset_at index_bytes 1))).
    apply Hfound; [vm_compute; split; [discriminate|reflexivity]|].
    vm_compute in Hh. injection Hh as <- <-. reflexivity.
  - destruct (pack_index_lookup index_bytes sha_absent index_bytes_wf
                sha_absent_is_hash)
      as (b & c & h & Hb & Hh & _ & _ & _ & Habsent).
    vm_compute in Hb. injection Hb as <-.
    vm_compute in Hh. injection Hh as <- <-.
    apply Habsent. intros ix Hix.
    change (1 <= ix < 3) in Hix.
    assert (ix = 1 \/ ix = 2) as [-> | ->] by lia; vm_compute; discriminate.
Defined.

(** ** Binary search against the linear scan *)

Lemma midpoint_bounds (lo hi : Z) : lo < hi -> lo <= (lo + hi) / 2 < hi.
Proof.
  intros H. pose proof (Z.div_mod (lo + hi) 2 ltac:(lia)).
  pose proof (Z.mod_pos_bound (lo + hi) 2 ltac:(lia)). lia.
Qed.

Lemma binary_search_fuel_Some (fuel : nat) (idx h : bytes) (lo hi ix : Z) :
  binary_search_fuel fuel idx h lo hi = Some ix ->
  lo <= ix < hi /\ hash_at idx ix = h.
Proof.
  revert lo hi. induction fuel as [|fuel IH]; intros lo hi; simpl;
    [discriminate|].
  destruct (lo <? hi) eqn:Hlt; [|discriminate].
  pose proof (midpoint_bounds lo hi ltac:(lia)) as Hmid.
  destruct (bytes_compare (hash_at idx ((lo + hi) / 2)) h) eqn:Hc.
  - intros [= <-]. split; [lia|]. apply bytes_compare_eq, Hc.
  - intros H. apply IH in H. split; [lia|apply H].
  - intros H. apply IH in H. split; [lia|apply H].
Qed.

Section SortedRange.

Variables (idx h : bytes) (lo0 hi0 : Z).
Hypothesis sorted : sorted_range idx lo0 hi0.

Lemma sorted_compare_Lt (mid ix : Z) :
  lo0 <= mid < hi0 -> lo0 <= ix < hi0 -> hash_at idx ix = h ->
  bytes_compare (hash_at idx mid) h = Lt -> mid < ix.
Proof.
  intros Hm Hi Hh Hc.
  destruct (Z.lt_trichotomy ix mid) as [Hlt|[->|Hgt]]; [| |assumption].
  - pose proof (sorted ix mid ltac:(lia) ltac:(lia)) as Hs.
    unfold bytes_lt in Hs. rewrite Hh in Hs.
    rewrite (bytes_compare_antisym h), Hs in Hc. discriminate.
  - rewrite Hh, bytes_compare_refl in Hc. discriminate.
Qed.

Lemma sorted_compare_Gt (mid ix : Z) :
  lo0 <= mid < hi0 -> lo0 <= ix < hi0 -> hash_at idx ix = h ->
  bytes_compare (hash_at idx mid) h = Gt -> ix < mid.
Proof.
  intros Hm Hi Hh Hc.
  destruct (Z.lt_trichotomy ix mid) as [Hlt|[->|Hgt]]; [assumption| |].
  - rewrite Hh, bytes_compare_refl in Hc. discriminate.
  - pose proof (sorted mid ix ltac:(lia) ltac:(lia)) as Hs.
    unfold bytes_lt in Hs. rewrite Hh in Hs. congruence.
Qed.

Lemma sorted_compare_Eq (mid ix : Z) :
  lo0 <= mid < hi0 -> lo0 <= ix < hi0 -> hash_at idx ix = h ->
  bytes_compare (hash_at idx mid) h = Eq -> mid = ix.
Proof.
  intros Hm Hi Hh Hc. apply bytes_compare_eq in Hc.
  destruct (Z.lt_trichotomy ix mid) as [Hlt|[->|Hgt]]; [|reflexivity|].
  - exfalso. apply (bytes_lt_neq _ _ (sorted ix mid ltac:(lia) ltac:(lia))).
    congruence.
  - exfalso. apply (bytes_lt_neq _ _ (sorted mid ix ltac:(lia) ltac:(lia))).
    congruence.
Qed.

(** In a sorted range the binary search finds every entry equal to the
    hash it looks for. *)
Lemma binary_search_fuel_found (fuel : nat) (lo hi ix : Z) :
  lo0 <= lo -> hi <= hi0 -> lo <= ix < hi -> hash_at idx ix = h ->
  hi - lo <= Z.of_nat fuel ->
  binary_search_fuel fuel idx h lo hi = Some ix.
Proof.
  revert lo hi. induction fuel as [|fuel IH]; intros lo hi Hlo Hhi Hix Hh Hf;
    [lia|].
  simpl. destruct (lo <? hi) eqn:Hlt; [|lia].
  pose proof (midpoint_bounds lo hi ltac:(lia)) as Hmid.
  destruct (bytes_compare (hash_at idx ((lo + hi) / 2)) h) eqn:Hc.
  - f_equal. apply sorted_compare_Eq; try assumption; lia.
  - pose proof (sorted_compare_Lt ((lo + hi) / 2) ix
                  ltac:(lia) ltac:(lia) Hh Hc).
    apply IH; try assumption; lia.
  - pose proof (sorted_compare_Gt ((lo + hi) / 2) ix
                  ltac:(lia) ltac:(lia) Hh Hc).
    apply IH; try assumption; lia.
Qed.

Lemma linear_scan_binary_search_range (lo hi : Z) :
  lo0 <= lo -> hi <= hi0 ->
  linear_scan idx h lo hi = binary_search idx h lo hi.
Proof.
  intros Hlo Hhi. unfold binary_search.
  destruct (linear_scan idx h lo hi) as [ix|] eqn:Hscan.
  - apply linear_scan_Some in Hscan as [Hix Hh]. symmetry.
    apply binary_search_fuel_found; try assumption; lia.
  - destruct (binary_search_fuel _ idx h lo hi) as [ix|] eqn:Hb;
      [|reflexivity].
    apply binary_search_fuel_Some in Hb as [Hix Hh]. exfalso.
    exact (linear_scan_None _ _ _ _ Hscan ix Hix Hh).
Qed.

End SortedRange.

Lemma sorted_range_sub (idx : bytes) (lo0 hi0 lo hi : Z) :
  sorted_range idx lo0 hi0 -> lo0 <= lo -> hi <= hi0 ->
  sorted_range idx lo hi.
Proof. intros Hs Hlo Hhi i j Hi Hj. apply Hs; lia. Qed.

(** C4. On a sorted range of the hash table the linear scan that the code
    makes and a binary search find the same entry, for every hash, present
    or absent; so the lookup returns the same result with either, on the
    range that the fan-out table gives and hence on every well-formed
    index. *)
Theorem linear_scan_is_binary_search (idx h : bytes) :
  (forall lo hi, sorted_range idx lo hi ->
     linear_scan idx h lo hi = binary_search idx h lo hi)
  /\ (forall b lo hi, index_range idx b = Ok (lo, hi) ->
        sorted_range idx lo hi ->
        index_lookup idx b h = index_lookup_bsearch idx b h)
  /\ (wf_index idx -> forall b, 0 <= b <= 255 ->
        index_lookup idx b h = index_lookup_bsearch idx b h).
Proof.
  assert (Hscan : forall lo hi, sorted_range idx lo hi ->
            linear_scan idx h lo hi = binary_search idx h lo hi).
  { intros lo hi Hs.
    apply (linear_scan_binary_search_range idx h lo hi Hs); lia. }
  assert (Hlookup : forall b lo hi, index_range idx b = Ok (lo, hi) ->
            sorted_range idx lo hi ->
            index_lookup idx b h = index_lookup_bsearch idx b h).
  { intros b lo hi Hr Hs. unfold index_lookup, index_lookup_bsearch.
    rewrite Hr. cbn [bind]. rewrite (Hscan lo hi Hs). reflexivity. }
  repeat apply conj; [exact Hscan|exact Hlookup|].
  intros Hwf b Hb.
  pose proof (index_range_bounds idx b Hwf Hb) as [Hlo Hhi].
  pose proof (wf_size idx Hwf) as Hsz.
  pose proof (fanout_nonneg idx 255) as Hn. fold (n_objects idx) in Hn.
  eapply Hlookup; [apply index_range_spec; lia|].
  exact (sorted_range_sub idx _ _ _ _ (wf_sorted idx Hwf) Hlo Hhi).
Qed.

Lemma index_bytes_sorted_1_3 : sorted_range index_bytes 1 3.
Proof.
  intros i j Hi Hj. assert (i = 1) as -> by lia. assert (j = 2) as -> by lia.
  reflexivity.
Qed.

Lemma linear_scan_is_binary_search_witness :
  linear_scan index_bytes hash_b 1 3 = binary_search index_bytes hash_b 1 3
  /\ index_lookup index_bytes 171 hash_b
     = index_lookup_bsearch index_bytes 171 hash_b
  /\ index_lookup index_bytes 0 hash_a
     = index_lookup_bsearch index_bytes 0 hash_a.
Proof.
  destruct (linear_scan_is_binary_search index_bytes hash_b)
    as (Hscan & Hlookup & _).
  destruct (linear_scan_is_binary_search index_bytes hash_a)
    as (_ & _ & Hwf).
  repeat apply conj.
  - apply Hscan. exact index_bytes_sorted_1_3.
  - apply (Hlookup 171 1 3); [reflexivity|exact index_bytes_sorted_1_3].
  - apply Hwf; [exact index_bytes_wf|lia].
Defined.

(** ** Pack object reader: the distance of an offset-delta *)

Lemma ofs_loop_stop (f : bytes) (byte off : Z) :
  Z.land byte 128 = 0 -> ofs_loop f byte off = Ok (off, f).
Proof. intros H. destruct f; simpl; rewrite H; reflexivity. Qed.

Lemma ofs_loop_continue (c : ascii) (f : bytes) (byte off : Z) :
  Z.land byte 128 <> 0 ->
  ofs_loop (c :: f) byte off
  = ofs_loop f (ord c) ((off + 1) * 128 + low7 c).
Proof.
  intros H. simpl. destruct (Z.land byte 128 =? 0) eqn:Hb; [lia|].
  rewrite Z.shiftl_mul_pow2 by lia. reflexivity.
Qed.

Lemma ofs_loop_closed (conts : bytes) (last : ascii) (rest : bytes)
  (byte off : Z) :
  Z.land byte 128 <> 0 -> Forall continues conts -> ~ continues last ->
  ofs_loop (conts ++ last :: rest) byte off
  = Ok (off * 128 ^ Z.of_nat (S (length conts))
        + be128 (map low7 (conts ++ [last]))
        + ofs_bias (S (length conts)), rest).
Proof.
  intros Hb Hconts Hlast. revert byte off Hb.
  induction Hconts as [|c conts Hc _ IH]; intros byte off Hb.
  - simpl app. rewrite ofs_loop_continue by assumption.
    rewrite ofs_loop_stop
      by (unfold continues in Hlast; destruct (Z.eq_dec (Z.land (ord last) 128) 0);
          [assumption|contradiction]).
    f_equal. f_equal. cbn [map be128 ofs_bias length app].
    change (Z.of_nat 1) with 1. change (Z.of_nat 0) with 0.
    rewrite Z.pow_1_r, Z.pow_0_r. lia.
  - simpl app. rewrite ofs_loop_continue by assumption.
    rewrite IH by exact Hc. f_equal. f_equal.
    cbn [map be128 ofs_bias length]. rewrite length_map, length_app.
    cbn [length]. rewrite Nat.add_1_r.
    rewrite !Nat2Z.inj_succ, !Z.pow_succ_r by lia. ring.
Qed.

(** The bytes [conts ++ [last]], of which all but the last have their
    high bit set, decode to their big-endian value in 7-bit groups plus
    the bias of the continuation steps. *)
Lemma read_ofs_closed (conts : bytes) (last : ascii) (rest : bytes) :
  Forall continues conts -> ~ continues last ->
  read_ofs (conts ++ last :: rest)
  = Ok (be128 (map low7 (conts ++ [last])) + ofs_bias (length conts), rest).
Proof.
  intros Hconts Hlast. unfold read_ofs.
  destruct conts as [|c conts]; simpl app; cbn [read_ord bind].
  - rewrite ofs_loop_stop
      by (unfold continues in Hlast; destruct (Z.eq_dec (Z.land (ord last) 128) 0);
          [assumption|contradiction]).
    f_equal. f_equal. cbn [map be128 ofs_bias length app].
    change (Z.of_nat 0) with 0. rewrite Z.pow_0_r. unfold low7. lia.
  - inversion Hconts as [|? ? Hc Hrest]; subst.
    rewrite ofs_loop_closed by assumption. f_equal. f_equal.
    cbn [map be128 ofs_bias length]. rewrite length_map, length_app.
    cbn [length]. rewrite Nat.add_1_r. unfold low7. lia.
Qed.

(** ** The stores *)

Section StoreProperties.

Variable zlib : zlib_api.
Variable obj_types : Z -> outcome bytes.
Variable getobj : bytes -> outcome (option bytes).
Variable fs : filesystem.

(** [get_obj_from_pack] looks the hash up in the index of each pack in
    turn and reads the entry of the first pack that has it. *)
Lemma get_obj_from_pack_cons (depth fuel : nat) (idx fn : bytes)
  (packs : list (bytes * bytes)) (sha : bytes) :
  get_obj_from_pack zlib obj_types getobj fs depth fuel ((idx, fn) :: packs) sha
  = (let* found := lookup idx sha in
     match found with
     | Some pack_off =>
         get_pack_obj zlib obj_types getobj fs depth fuel fn pack_off
     | None => get_obj_from_pack zlib obj_types getobj fs depth fuel packs sha
     end).
Proof.
  unfold get_obj_from_pack, lookup.
  destruct (py_int16 (py_slice_to sha 2)) as [firstbyte| |]; cbn [bind];
    [|reflexivity|reflexivity].
  destruct (unhexlify sha) as [binaryhash| |]; cbn [bind];
    [|reflexivity|reflexivity].
  cbn [search_packs].
  destruct (index_lookup idx firstbyte binaryhash) as [[pack_off|]| |];
    reflexivity.
Qed.

Lemma get_obj_from_pack_nil (depth fuel : nat) (sha : bytes) :
  is_hash sha ->
  get_obj_from_pack zlib obj_types getobj fs depth fuel [] sha = Ok None.
Proof.
  intros Hsha.
  destruct (hash_first_byte sha Hsha) as (b & c & h & Hb & Hh & _).
  unfold get_obj_from_pack. rewrite Hb, Hh. reflexivity.
Qed.

(** C5. An entry of type 6 (offset-delta): the bytes after the entry
    header are a second variable-length integer, whose value is the
    big-endian value of its 7-bit groups plus 1 for every continuation step
    at the weight of that step; it is not the encoding of the sizes, which
    on the same bytes gives another value.  The entry is resolved by
    reading the same pack file at [offset] minus that distance,
    decompressing the delta and applying [patch_delta] to the two. *)
Theorem offset_delta_entry :
  (forall (depth fuel : nat) (packfn : bytes) (offset : Z)
          (contents : bytes) (size : Z) (conts : bytes) (last : ascii)
          (rest : bytes),
     fs packfn = Some (File contents) -> 0 <= offset ->
     get_type_and_size (skipn (Z.to_nat offset) contents)
       = Ok (6, size, conts ++ last :: rest) ->
     Forall continues conts -> ~ continues last ->
     get_pack_obj zlib obj_types getobj fs (S depth) fuel packfn offset
     = (let distance :=
          be128 (map low7 (conts ++ [last])) + ofs_bias (length conts) in
        let* delta := read_zlib zlib fuel rest size in
        let* ref := get_pack_obj zlib obj_types getobj fs depth fuel packfn
                                 (offset - distance) in
        let* obj := patch_delta_opt ref delta in
        Ok (Some obj)))
  /\ read_ofs [chr 129; chr 1] = Ok (257, [])
  /\ get_type_and_size [chr 129; chr 1] = Ok (0, 17, [])
  /\ get_delta_hdr_size [chr 129; chr 1] 0 = Ok (129, 2).
Proof.
  repeat apply conj; try reflexivity.
  intros depth fuel packfn offset contents size conts last rest
         Hfile Hoff Hhdr Hconts Hlast.
  cbn [get_pack_obj]. unfold open_file. rewrite Hfile. cbn [bind].
  unfold seek. destruct (offset <? 0) eqn:Hneg; [lia|]. cbn [bind].
  rewrite Hhdr. cbn [bind].
  change (6 <? 5) with false. change (6 =? 6) with true. cbv iota.
  rewrite read_ofs_closed by assumption. reflexivity.
Qed.

Lemma feed_chunks_S (n : nat) (d d1 d' : z_state zlib) (f rest block : bytes)
  (blocks : list bytes) :
  z_feed zlib d (firstn 4096 f) = Ok (block, d1) ->
  feed_chunks zlib n d1 (skipn 4096 f) = Ok (blocks, d', rest) ->
  feed_chunks zlib (S n) d f = Ok (block :: blocks, d', rest).
Proof.
  intros Hfeed Hrun. cbn [feed_chunks]. rewrite Hfeed. cbn [bind].
  rewrite Hrun. reflexivity.
Qed.

Lemma feed_chunks_S_inv (n : nat) (d d' : z_state zlib) (f rest : bytes)
  (blocks : list bytes) :
  feed_chunks zlib (S n) d f = Ok (blocks, d', rest) ->
  exists block d1 blocks',
    z_feed zlib d (firstn 4096 f) = Ok (block, d1)
    /\ feed_chunks zlib n d1 (skipn 4096 f) = Ok (blocks', d', rest)
    /\ blocks = block :: blocks'.
Proof.
  cbn [feed_chunks]. intros H.
  apply bind_Ok_inv in H as ([block d1] & Hfeed & H).
  apply bind_Ok_inv in H as ([[blocks' d2] rest'] & Hrun & [= <- <- <-]).
  exists block, d1, blocks'. auto.
Qed.

(** A return of the loop: the blocks appended are what the decompressor
    yielded on the chunks read, the size was not reached before the last
    of them and is reached with it. *)
Lemma read_zlib_loop_returns (fuel : nat) (d : z_state zlib) (f : bytes)
  (sizeremaining : Z) (result out : list bytes) :
  read_zlib_loop zlib fuel d f sizeremaining result = Ok out ->
  exists (n : nat) (blocks : list bytes) (d' : z_state zlib) (rest : bytes),
    (n <= fuel)%nat
    /\ feed_chunks zlib n d f = Ok (blocks, d', rest)
    /\ out = result ++ blocks
    /\ (forall k, (k < n)%nat ->
          blen (concat (firstn k blocks)) < sizeremaining)
    /\ sizeremaining <= blen (concat blocks).
Proof.
  revert d f sizeremaining result.
  induction fuel as [|fuel IH]; intros d f sizeremaining result; simpl;
    destruct (0 <? sizeremaining) eqn:Hpos; try discriminate;
    try (intros [= <-]; exists 0%nat, [], d, f;
         repeat apply conj;
         [lia | reflexivity | symmetry; apply app_nil_r | intros; lia
         | change (blen (concat [])) with 0; lia]).
  intros H. apply bind_Ok_inv in H as ([block d1] & Hfeed & H).
  apply IH in H as (n & blocks & d' & rest & Hn & Hrun & -> & Hshort & Hreach).
  exists (S n), (block :: blocks), d', rest. repeat apply conj.
  - lia.
  - exact (feed_chunks_S _ _ _ _ _ _ _ _ Hfeed Hrun).
  - rewrite <- app_assoc. reflexivity.
  - intros [|k] Hk; cbn [firstn concat].
    + change (blen []) with 0. lia.
    + rewrite blen_app. specialize (Hshort k ltac:(lia)). lia.
  - cbn [concat]. rewrite blen_app. lia.
Qed.

(** Conversely, the loop returns as soon as the yield reaches the size. *)
Lemma read_zlib_loop_reaches (n : nat) :
  forall (fuel : nat) (d d' : z_state zlib) (f rest : bytes)
         (sizeremaining : Z) (result blocks : list bytes),
    feed_chunks zlib n d f = Ok (blocks, d', rest) ->
    (forall k, (k < n)%nat ->
       blen (concat (firstn k blocks)) < sizeremaining) ->
    sizeremaining <= blen (concat blocks) ->
    (n <= fuel)%nat ->
    read_zlib_loop zlib fuel d f sizeremaining result = Ok (result ++ blocks).
Proof.
  induction n as [|n IH];
    intros fuel d d' f rest sizeremaining result blocks Hrun Hshort Hreach Hfuel.
  - injection Hrun as <- _ _. change (blen (concat [])) with 0 in Hreach.
    rewrite app_nil_r.
    destruct fuel; simpl; destruct (0 <? sizeremaining) eqn:Hpos;
      solve [reflexivity | lia].
  - apply feed_chunks_S_inv in Hrun
      as (block & d1 & blocks' & Hfeed & Hrun & ->).
    pose proof (Hshort 0%nat ltac:(lia)) as Hpos.
    change (blen (concat (firstn 0 (block :: blocks')))) with 0 in Hpos.
    destruct fuel as [|fuel]; [lia|]. simpl.
    destruct (0 <? sizeremaining) eqn:Hp; [|lia].
    rewrite Hfeed. cbn [bind].
    rewrite (IH fuel d1 d' (skipn 4096 f) rest (sizeremaining - blen block)
               (result ++ [block]) blocks' Hrun).
    + rewrite <- app_assoc. reflexivity.
    + intros k Hk. specialize (Hshort (S k) ltac:(lia)).
      cbn [firstn concat] in Hshort. rewrite blen_app in Hshort. lia.
    + cbn [concat] in Hreach. rewrite blen_app in Hreach. lia.
    + lia.
Qed.

(** An error of the decompressor, at whatever chunk, ends the loop with
    that error. *)
Lemma read_zlib_loop_raises (n : nat) :
  forall (fuel : nat) (d d' : z_state zlib) (f rest : bytes)
         (sizeremaining : Z) (result blocks : list bytes) (e : exn),
    feed_chunks zlib n d f = Ok (blocks, d', rest) ->
    blen (concat blocks) < sizeremaining ->
    z_feed zlib d' (firstn 4096 rest) = Raise e ->
    (n < fuel)%nat ->
    read_zlib_loop zlib fuel d f sizeremaining result = Raise e.
Proof.
  induction n as [|n IH];
    intros fuel d d' f rest sizeremaining result blocks e Hrun Hshort He Hfuel;
    (destruct fuel as [|fuel]; [lia|]).
  - injection Hrun as <- <- <-. change (blen (concat [])) with 0 in Hshort.
    simpl. destruct (0 <? sizeremaining) eqn:Hp; [|lia].
    rewrite He. reflexivity.
  - apply feed_chunks_S_inv in Hrun
      as (block & d1 & blocks' & Hfeed & Hrun & ->).
    cbn [concat] in Hshort. rewrite blen_app in Hshort.
    pose proof (blen_nonneg block). pose proof (blen_nonneg (concat blocks')).
    simpl. destruct (0 <? sizeremaining) eqn:Hp; [|lia].
    rewrite Hfeed. cbn [bind].
    apply (IH fuel d1 d' (skipn 4096 f) rest (sizeremaining - blen block)
              (result ++ [block]) blocks' e Hrun); [lia|exact He|lia].
Qed.

(** The loop raises nothing of its own. *)
Lemma read_zlib_loop_raised (fuel : nat) (d : z_state zlib) (f : bytes)
  (sizeremaining : Z) (result : list bytes) (e : exn) :
  read_zlib_loop zlib fuel d f sizeremaining result = Raise e ->
  exists (n : nat) (blocks : list bytes) (d' : z_state zlib) (rest : bytes),
    (n < fuel)%nat
    /\ feed_chunks zlib n d f = Ok (blocks, d', rest)
    /\ blen (concat blocks) < sizeremaining
    /\ z_feed zlib d' (firstn 4096 rest) = Raise e.
Proof.
  revert d f sizeremaining result.
  induction fuel as [|fuel IH]; intros d f sizeremaining result; simpl;
    destruct (0 <? sizeremaining) eqn:Hpos; try discriminate.
  destruct (z_feed zlib d (firstn 4096 f)) as [[block d1]|e'|] eqn:Hfeed;
    cbn [bind]; [|intros [= ->]|discriminate].
  - intros H.
    apply IH in H as (n & blocks & d' & rest & Hn & Hrun & Hshort & He).
    exists (S n), (block :: blocks), d', rest. repeat apply conj.
    + lia.
    + exact (feed_chunks_S _ _ _ _ _ _ _ _ Hfeed Hrun).
    + cbn [concat]. rewrite blen_app. lia.
    + exact He.
  - exists 0%nat, [], d, f. repeat apply conj;
      [lia | reflexivity | change (blen (concat [])) with 0; lia | exact Hfeed].
Qed.

(** C6, as the code has it.  [read_zlib] feeds the file to the
    decompressor chunk by chunk and returns at the first chunk with which
    the yield reaches the declared size.  What it returns is everything
    that the decompressor has yielded by then: never shorter than [size],
    and longer whenever the last block goes beyond it, since the length is
    not compared with [size].  It returns so in every such run, given the
    iterations.  An error of the decompressor, at whatever chunk, goes to
    the caller as it is, and [read_zlib] raises no error but those.  The
    read of an entry of a base type puts the header with the declared size
    before what [read_zlib] returned. *)
Theorem read_zlib_at_least (f : bytes) (size : Z) :
  (forall (fuel : nat) (out : bytes),
     read_zlib zlib fuel f size = Ok out ->
     size <= blen out
     /\ exists (n : nat) (blocks : list bytes) (d : z_state zlib)
               (rest : bytes),
          (n <= fuel)%nat
          /\ feed_chunks zlib n (z_decompressobj zlib) f
             = Ok (blocks, d, rest)
          /\ out = concat blocks
          /\ forall k, (k < n)%nat -> blen (concat (firstn k blocks)) < size)
  /\ (forall (n : nat) (blocks : list bytes) (d : z_state zlib)
             (rest : bytes),
        feed_chunks zlib n (z_decompressobj zlib) f = Ok (blocks, d, rest) ->
        (forall k, (k < n)%nat -> blen (concat (firstn k blocks)) < size) ->
        size <= blen (concat blocks) ->
        forall fuel : nat, (n <= fuel)%nat ->
          read_zlib zlib fuel f size = Ok (concat blocks))
  /\ (forall (n : nat) (blocks : list bytes) (d : z_state zlib)
             (rest : bytes) (e : exn),
        feed_chunks zlib n (z_decompressobj zlib) f = Ok (blocks, d, rest) ->
        blen (concat blocks) < size ->
        z_feed zlib d (firstn 4096 rest) = Raise e ->
        forall fuel : nat, (n < fuel)%nat ->
          read_zlib zlib fuel f size = Raise e)
  /\ (forall (fuel : nat) (e : exn),
        read_zlib zlib fuel f size = Raise e ->
        exists (n : nat) (blocks : list bytes) (d : z_state zlib)
               (rest : bytes),
          (n < fuel)%nat
          /\ feed_chunks zlib n (z_decompressobj zlib) f
             = Ok (blocks, d, rest)
          /\ blen (concat blocks) < size
          /\ z_feed zlib d (firstn 4096 rest) = Raise e)
  /\ (forall (depth fuel : nat) (packfn : bytes) (offset : Z)
             (contents : bytes) (t : Z) (name : bytes),
        fs packfn = Some (File contents) -> 0 <= offset ->
        get_type_and_size (skipn (Z.to_nat offset) contents)
          = Ok (t, size, f) ->
        t < 5 -> obj_types t = Ok name ->
        get_pack_obj zlib obj_types getobj fs (S depth) fuel packfn offset
        = (let* payload := read_zlib zlib fuel f size in
           Ok (Some (envelope_hdr name size ++ payload)))).
Proof.
  repeat apply conj.
  - intros fuel out H. unfold read_zlib in H.
    apply bind_Ok_inv in H as (r & Hr & [= <-]).
    apply read_zlib_loop_returns in Hr
      as (n & blocks & d & rest & Hn & Hrun & -> & Hshort & Hreach).
    split; [exact Hreach|].
    exists n, blocks, d, rest. auto.
  - intros n blocks d rest Hrun Hshort Hreach fuel Hfuel. unfold read_zlib.
    rewrite (read_zlib_loop_reaches n fuel _ d f rest size [] blocks
               Hrun Hshort Hreach Hfuel).
    reflexivity.
  - intros n blocks d rest e Hrun Hshort He fuel Hfuel. unfold read_zlib.
    rewrite (read_zlib_loop_raises n fuel _ d f rest size [] blocks e
               Hrun Hshort He Hfuel).
    reflexivity.
  - intros fuel e H. unfold read_zlib in H.
    destruct (read_zlib_loop zlib fuel (z_decompressobj zlib) f size [])
      as [r|e'|] eqn:Hloop; cbn [bind] in H; try discriminate.
    injection H as ->. exact (read_zlib_loop_raised _ _ _ _ _ _ Hloop).
  - intros depth fuel packfn offset contents t name Hfile Hoff Hhdr Ht Hname.
    cbn [get_pack_obj]. unfold open_file. rewrite Hfile. cbn [bind].
    unfold seek. destruct (offset <? 0) eqn:Hneg; [lia|]. cbn [bind].
    rewrite Hhdr. cbn [bind].
    destruct (t <? 5) eqn:Ht5; [|lia].
    rewrite Hname. reflexivity.
Qed.

Lemma read_zlib_loop_starved (fuel : nat) (d : z_state zlib)
  (sizeremaining : Z) (result : list bytes) :
  idle_without_input zlib d -> 0 < sizeremaining ->
  read_zlib_loop zlib fuel d [] sizeremaining result = OutOfFuel.
Proof.
  intros (I & Hd & Hstep) Hpos. revert d result Hd.
  induction fuel as [|fuel IH]; intros d result Hd; simpl;
    destruct (0 <? sizeremaining) eqn:Hp; try lia; try reflexivity.
  destruct (Hstep d Hd) as (d2 & Hfeed & Hd2).
  rewrite Hfeed. cbn [bind]. change (blen []) with 0.
  rewrite Z.sub_0_r. apply IH. exact Hd2.
Qed.

(** C7.  At the end of the file [f.read(4096)] is empty, the decompressor
    yields nothing and [sizeremaining] stays what it is: the loop of
    [read_zlib] never exits, whatever the number of iterations given to
    it, and neither does the read of a pack entry whose file ends after
    the entry header. *)
Theorem read_zlib_truncated_diverges :
  idle_without_input zlib (z_decompressobj zlib) ->
  forall size : Z, 0 < size ->
    (forall fuel : nat, read_zlib zlib fuel [] size = OutOfFuel)
    /\ (forall (depth fuel : nat) (packfn : bytes) (offset : Z)
               (contents : bytes) (t : Z) (name : bytes),
          fs packfn = Some (File contents) -> 0 <= offset ->
          get_type_and_size (skipn (Z.to_nat offset) contents)
            = Ok (t, size, []) ->
          t < 5 -> obj_types t = Ok name ->
          get_pack_obj zlib obj_types getobj fs (S depth) fuel packfn offset
          = OutOfFuel).
Proof.
  intros Hidle size Hpos.
  assert (Hread : forall fuel, read_zlib zlib fuel [] size = OutOfFuel).
  { intros fuel. unfold read_zlib.
    rewrite read_zlib_loop_starved by assumption. reflexivity. }
  split; [exact Hread|].
  intros depth fuel packfn offset contents t name Hfile Hoff Hhdr Ht Hname.
  cbn [get_pack_obj]. unfold open_file. rewrite Hfile. cbn [bind].
  unfold seek. destruct (offset <? 0) eqn:Hneg; [lia|]. cbn [bind].
  rewrite Hhdr. cbn [bind].
  destruct (t <? 5) eqn:Ht5; [|lia].
  rewrite Hname. cbn [bind]. rewrite Hread. reflexivity.
Qed.

(** C10. For a hash stored in a [MemStore], [getobj] returns the stored
    value and [getlooseobj] returns its compressed form, not the value:
    decompressing what [getlooseobj] returns gives what [getobj] returns,
    wherever zlib's own round trip holds for the value.  So it is after
    [putobj], which leaves the other hashes as they were; for a hash that
    is not stored both raise a [KeyError].
    [FsStore.getlooseobj] returns the bytes of the loose file as they
    are, whether a zlib stream or not, and [None] when the path does not
    exist. *)
Theorem getlooseobj_is_compressed :
  (forall (store : gmap bytes bytes) (sha value : bytes),
     store !! sha = Some value ->
     mem_getobj store sha = Ok value
     /\ mem_getlooseobj zlib store sha = Ok (z_compress zlib value)
     /\ (z_decompress zlib (z_compress zlib value) = Ok value ->
         (let* compressed := mem_getlooseobj zlib store sha in
          z_decompress zlib compressed) = Ok value))
  /\ (forall (store : gmap bytes bytes) (sha value : bytes),
        mem_getobj (mem_putobj store sha value) sha = Ok value
        /\ mem_getlooseobj zlib (mem_putobj store sha value) sha
           = Ok (z_compress zlib value)
        /\ forall sha' : bytes, sha' <> sha ->
             mem_getlooseobj zlib (mem_putobj store sha value) sha'
             = mem_getlooseobj zlib store sha')
  /\ (forall (store : gmap bytes bytes) (sha : bytes),
        store !! sha = None ->
        mem_getobj store sha = Raise KeyError
        /\ mem_getlooseobj zlib store sha = Raise KeyError)
  /\ (forall (basedir sha data : bytes),
        fs (loose_path basedir sha) = Some (File data) ->
        fs_getlooseobj fs basedir sha = Ok (Some data))
  /\ (forall (basedir sha : bytes),
        fs (loose_path basedir sha) = None ->
        fs_getlooseobj fs basedir sha = Ok None).
Proof.
  assert (Hstored : forall (store : gmap bytes bytes) (sha value : bytes),
             store !! sha = Some value ->
             mem_getobj store sha = Ok value
             /\ mem_getlooseobj zlib store sha = Ok (z_compress zlib value)).
  { intros store sha value Hin. unfold mem_getlooseobj, mem_getobj.
    rewrite Hin. split; reflexivity. }
  split; [|split; [|split; [|split]]].
  - intros store sha value Hin.
    destruct (Hstored store sha value Hin) as [Hget Hloose].
    split; [exact Hget|]. split; [exact Hloose|].
    intros Hrt. rewrite Hloose. cbn [bind]. exact Hrt.
  - intros store sha value.
    destruct (Hstored (mem_putobj store sha value) sha value) as [Hget Hloose].
    { unfold mem_putobj. apply lookup_insert_eq. }
    split; [exact Hget|]. split; [exact Hloose|].
    intros sha' Hother. unfold mem_getlooseobj, mem_getobj, mem_putobj.
    rewrite lookup_insert_ne by congruence. reflexivity.
  - intros store sha Hout. unfold mem_getlooseobj, mem_getobj.
    rewrite Hout. split; reflexivity.
  - intros basedir sha data Hfile.
    unfold fs_getlooseobj, open_file. rewrite Hfile. reflexivity.
  - intros basedir sha Hnone. unfold fs_getlooseobj. rewrite Hnone.
    reflexivity.
Qed.

End StoreProperties.

(** ** Runs on concrete files *)

Lemma offset_delta_entry_witness :
  get_pack_obj stored_zlib spec_obj_types no_getobj one_pack_fs 2 1
               pack_name 27
  = Ok (Some (lit "blob 5" ++ [NUL] ++ lit "bcxyz")).
Proof.
  eapply eq_trans.
  - apply (proj1 (offset_delta_entry stored_zlib spec_obj_types no_getobj
                    one_pack_fs)
             1%nat 1%nat pack_name 27 pack_bytes 9 [] (chr 15)
             (stored_compress delta_bcxyz)).
    + reflexivity.
    + lia.
    + reflexivity.
    + constructor.
    + unfold continues. vm_compute. intros H. apply H. reflexivity.
  - vm_compute. reflexivity.
Defined.

Lemma read_zlib_at_least_witness :
  (1 <= blen (lit "hello")
   /\ exists (n : nat) (blocks : list bytes) (d rest : bytes),
        (n <= 1)%nat
        /\ feed_chunks stored_zlib n [] (stored_compress (lit "hello"))
           = Ok (blocks, d, rest)
        /\ lit "hello" = concat blocks
        /\ forall k, (k < n)%nat -> blen (concat (firstn k blocks)) < 1)
  /\ read_zlib stored_zlib 7 (stored_compress (lit "hello")) 1
     = Ok (lit "hello")
  /\ read_zlib stored_zlib 2 stream_bad_checksum 4200 = Raise ZlibError
  /\ (exists (n : nat) (blocks : list bytes) (d rest : bytes),
        (n < 1)%nat
        /\ feed_chunks stored_zlib n [] [chr 0; chr 0] = Ok (blocks, d, rest)
        /\ blen (concat blocks) < 1
        /\ stored_feed d (firstn 4096 rest) = Raise ZlibError)
  /\ get_pack_obj stored_zlib spec_obj_types no_getobj
                  (single_file_fs pack_name pack_oversized) 1 1 pack_name 0
     = (let* payload :=
          read_zlib stored_zlib 1 (stored_compress (lit "hello")) 1 in
        Ok (Some (envelope_hdr (lit "blob") 1 ++ payload))).
Proof.
  repeat apply conj.
  - apply (proj1 (read_zlib_at_least stored_zlib spec_obj_types no_getobj
                    (single_file_fs pack_name pack_oversized)
                    (stored_compress (lit "hello")) 1) 1%nat (lit "hello")).
    reflexivity.
  - apply (proj1 (read_zlib_at_least stored_zlib spec_obj_types no_getobj
                    (single_file_fs pack_name pack_oversized)
                    (stored_compress (lit "hello")) 1) 1%nat (lit "hello")).
    reflexivity.
  - apply (proj1 (proj2 (read_zlib_at_least stored_zlib spec_obj_types
                           no_getobj (single_file_fs pack_name pack_oversized)
                           (stored_compress (lit "hello")) 1))
             1%nat [lit "hello"] (stored_compress (lit "hello")) []).
    + reflexivity.
    + intros k Hk. replace k with 0%nat by lia. reflexivity.
    + vm_compute. discriminate.
    + lia.
  - apply (proj1 (proj2 (proj2
             (read_zlib_at_least stored_zlib spec_obj_types no_getobj
                (single_file_fs pack_name pack_oversized)
                stream_bad_checksum 4200)))
             1%nat [repeat "a"%char (Z.to_nat 4089)]
             (firstn 4096 stream_bad_checksum)
             (skipn 4096 stream_bad_checksum) ZlibError).
    + vm_compute. reflexivity.
    + vm_compute. reflexivity.
    + vm_compute. reflexivity.
    + lia.
  - apply (proj1 (proj2 (proj2 (proj2
             (read_zlib_at_least stored_zlib spec_obj_types no_getobj
                (single_file_fs pack_name pack_oversized)
                [chr 0; chr 0] 1))))
             1%nat ZlibError).
    reflexivity.
  - apply (proj2 (proj2 (proj2 (proj2
             (read_zlib_at_least stored_zlib spec_obj_types no_getobj
                (single_file_fs pack_name pack_oversized)
                (stored_compress (lit "hello")) 1))))
             0%nat 1%nat pack_name 0 pack_oversized 3 (lit "blob"));
      solve [reflexivity | lia].
Defined.

(** The claim as the specification states it fails: the stream of a pack
    entry that declares 1 byte decompresses to the 5 bytes of ["hello"],
    and the read returns the 5 bytes under a header that says 1. *)
Lemma read_zlib_returns_longer :
  ~ (forall fuel f size out,
       read_zlib stored_zlib fuel f size = Ok out -> blen out = size)
  /\ read_zlib stored_zlib 1 (stored_compress (lit "hello")) 1
     = Ok (lit "hello")
  /\ get_pack_obj stored_zlib spec_obj_types no_getobj
                  (single_file_fs pack_name pack_oversized) 1 1 pack_name 0
     = Ok (Some (lit "blob 1" ++ [NUL] ++ lit "hello")).
Proof.
  repeat apply conj; try reflexivity.
  intros H.
  specialize (H 1%nat (stored_compress (lit "hello")) 1 (lit "hello") eq_refl).
  vm_compute in H. discriminate.
Qed.

Lemma stored_zlib_idle : idle_without_input stored_zlib [].
Proof.
  exists (fun d => d = []). split; [reflexivity|].
  intros d1 ->. exists []. split; reflexivity.
Qed.

Lemma read_zlib_truncated_diverges_witness :
  read_zlib stored_zlib 1000 [] 3 = OutOfFuel
  /\ get_pack_obj stored_zlib spec_obj_types no_getobj
                  (single_file_fs pack_name pack_truncated) 1 1000 pack_name 0
     = OutOfFuel.
Proof.
  destruct (read_zlib_truncated_diverges stored_zlib spec_obj_types no_getobj
              (single_file_fs pack_name pack_truncated) stored_zlib_idle 3
              ltac:(lia)) as [Hread Hentry].
  split.
  - apply Hread.
  - apply (Hentry 0%nat 1000%nat pack_name 0 pack_truncated 3 (lit "blob"));
      solve [reflexivity | lia].
Defined.

Lemma loose_path_hello :
  loose_path (lit "_git") sha_hello
  = lit "_git/objects/b6/fc4c620b67d95f953a5c1c1230aaab5db5a1b0".
Proof. reflexivity. Qed.

Lemma getlooseobj_is_compressed_witness :
  (mem_getobj mem_store_hello sha_hello
   = Ok (lit "blob 5" ++ [NUL] ++ lit "hello")
   /\ mem_getlooseobj stored_zlib mem_store_hello sha_hello
      = Ok (stored_compress (lit "blob 5" ++ [NUL] ++ lit "hello"))
   /\ (let* compressed :=
         mem_getlooseobj stored_zlib mem_store_hello sha_hello in
       stored_decompress compressed)
      = Ok (lit "blob 5" ++ [NUL] ++ lit "hello"))
  /\ mem_getlooseobj stored_zlib
       (mem_putobj mem_store_hello (lit "00") (lit "blob 0" ++ [NUL]))
       sha_hello
     = mem_getlooseobj stored_zlib mem_store_hello sha_hello
  /\ (mem_getobj (∅ : gmap bytes bytes) sha_hello = Raise KeyError
      /\ mem_getlooseobj stored_zlib ∅ sha_hello = Raise KeyError)
  /\ fs_getlooseobj
       (single_file_fs (loose_path (lit "_git") sha_hello)
                       (stored_compress (lit "blob 5" ++ [NUL] ++ lit "hello")))
       (lit "_git") sha_hello
     = Ok (Some (stored_compress (lit "blob 5" ++ [NUL] ++ lit "hello")))
  /\ fs_getlooseobj (single_file_fs pack_name pack_bytes) (lit "_git") sha_hello
     = Ok None.
Proof.
  pose proof (getlooseobj_is_compressed stored_zlib
                (single_file_fs (loose_path (lit "_git") sha_hello)
                   (stored_compress (lit "blob 5" ++ [NUL] ++ lit "hello"))))
    as (Hstored & Hput & Hout & Hfile & _).
  pose proof (getlooseobj_is_compressed stored_zlib
                (single_file_fs pack_name pack_bytes))
    as (_ & _ & _ & _ & Hnone).
  destruct (Hstored mem_store_hello sha_hello
              (lit "blob 5" ++ [NUL] ++ lit "hello")
              (lookup_insert_eq _ _ _))
    as (Hget & Hloose & Hrt).
  repeat apply conj.
  - exact Hget.
  - exact Hloose.
  - apply Hrt. reflexivity.
  - apply (proj2 (proj2 (Hput mem_store_hello (lit "00")
                           (lit "blob 0" ++ [NUL])))).
    discriminate.
  - apply (Hout ∅ sha_hello). apply lookup_empty.
  - apply (Hout ∅ sha_hello). apply lookup_empty.
  - apply Hfile. reflexivity.
  - apply Hnone. reflexivity.
Defined.
